(** * The usage-limited proxy: admission control and accounting

    A shallow embedding of the two server sources of the repository
    (src/server.js, one endpoint, and the later two-endpoint server) and
    the properties of their admission and accounting protocol.

    Conventions of the model.
    - [req.body] is a record of optional fields: a field that the client
      left out reads [None] (JavaScript's [undefined]).  Identities and
      payloads are strings, as the interface documents them.
    - [usageTracker] is at first a finite map from identities to counts,
      the own numeric properties of the object.  What the object inherits
      from [Object.prototype] is added in the module [Proto], which
      agrees with the first model on every run without an identity that
      names an inherited member.
    - An [async] handler runs in two synchronous pieces, separated by the
      [await] of the upstream call: the piece up to [fetch], and the piece
      from the parsed reply to the response.  The event loop may run pieces
      of other requests in between, so a process is a step function over
      the events [Arrive] and [Settle]. *)

From stdpp Require Import gmap strings list.

Local Open Scope string_scope.
Local Open Scope list_scope.

(** ** Values shared by both sources *)

(** The value of a JSON text: what [apiResponse.json()] gives for a body
    that parses and what [res.json] writes out again.  The proxy never
    looks inside, so values are kept abstract; a value stands for itself,
    not for the text of the body it was read from. *)
Definition json := string.

Record search_payload := SearchPayload {
  query : option string;
  startIndex : option Z
}.

Record body := Body {
  userId : option string;
  geminiPayload : option json;
  searchPayload : option search_payload
}.

(** [process.env], the three variables that the servers read. *)
Record environment := Environment {
  GEMINI_API_KEY : option string;
  SEARCH_API_KEY : option string;
  CX_ID : option string
}.

(** JavaScript truthiness of an optional string: [undefined] and the empty
    string are falsy. *)
Definition truthy (v : option string) : bool :=
  match v with
  | Some s => negb (String.eqb s "")
  | None => false
  end.

(** The property name under which an object is indexed by [v]. *)
Definition property_key (v : option string) : string :=
  match v with
  | Some s => s
  | None => "undefined"
  end.

(** [startIndex || 1], for a startIndex that is absent or an integer.
    Other JSON values in that place are not modelled, and no property
    below depends on the start position of a search. *)
Definition or_one (v : option Z) : Z :=
  match v with
  | Some n => if (n =? 0)%Z then 1%Z else n
  | None => 1%Z
  end.

(** The argument of [res.json]: the object [{error: ...}], or a value
    read from the upstream. *)
Inductive payload :=
  | ErrorBody (error : string)
  | Data (data : json).

Record response := Response {
  status : Z;
  sent : payload
}.

(** What [await fetch(...)] followed by [await apiResponse.json()] yields:
    [fetch] rejects, or it resolves and the body does not parse, or both
    succeed. *)
Inductive fetch_result :=
  | Rejected (cause : string)
  | Unparsable (upstream_status : Z) (cause : string)
  | Parsed (upstream_status : Z) (data : json).

(** [apiResponse.ok] *)
Definition ok (upstream_status : Z) : bool :=
  (200 <=? upstream_status)%Z && (upstream_status <=? 299)%Z.

(** The arguments of a [fetch]: the parts that the handlers interpolate
    into the fixed URL templates, and the request body. *)
Inductive upstream_call :=
  | GenerateContent (key : option string) (content : option json)
  | CustomSearch (key cx : option string) (q : string) (start : Z).

(** The locals of a handler that are live across its [await]. *)
Record suspended := Suspended {
  held_userId : option string;
  held_userUsage : nat
}.

(** A handler either answers at once or suspends on an upstream call. *)
Inductive progress :=
  | Done (r : response)
  | Await (c : upstream_call) (k : suspended).

Definition FREE_TRIAL_LIMIT : nat := 20.

(** [usageTracker[userId] || 0] *)
Definition usage (usageTracker : gmap string nat) (userId : option string) : nat :=
  default 0 (usageTracker !! property_key userId).

Definition missing_user_id : response :=
  Response 400 (ErrorBody "Missing user ID.").

Definition quota_exhausted : response :=
  Response 429 (ErrorBody
    "Free trial limit reached. Please add your own API key in the settings to continue.").

Definition proxy_error : response :=
  Response 500 (ErrorBody "An error occurred on the proxy server.").

Definition missing_query : response :=
  Response 400 (ErrorBody "Missing search query in request body").

Definition configuration_error : response :=
  Response 500 (ErrorBody "Server configuration error.").

(** ** The rate limiter *)

Record limiter_options := LimiterOptions {
  windowMs : Z;
  max : nat;
  message : string;
  standardHeaders : bool;
  legacyHeaders : bool
}.

Record window_entry := WindowEntry {
  windowStart : Z;
  count : nat
}.

(** Modelled from the spec: the middleware that [rateLimit] of the package
    express-rate-limit builds, which is not part of the sources.  A
    fixed-window counter per key: an absent entry, or one whose window has
    run out, is replaced by a fresh window starting now; a full window
    rejects, otherwise the count goes up by one.  The key is whatever
    [keyGenerator] returns, here [req.body.userId], present or not. *)
Definition rateLimit (o : limiter_options)
    (store : gmap (option string) window_entry)
    (key : option string) (now : Z)
    : bool * gmap (option string) window_entry :=
  let fresh := WindowEntry now 0 in
  let e := match store !! key with
           | Some e => if (windowMs o <=? now - windowStart e)%Z then fresh else e
           | None => fresh
           end in
  if (max o <=? count e)%nat
  then (false, <[key := e]> store)
  else (true, <[key := WindowEntry (windowStart e) (S (count e))]> store).

(** Modelled from the spec: the answer of the limiter to a rejected
    request, status 429 with the configured [message]. *)
Definition rate_limited (o : limiter_options) : response :=
  Response 429 (ErrorBody (message o)).

(** ** src/server.js *)

Module ServerJs.

Definition apiLimiter : limiter_options := {|
  windowMs := 1 * 60 * 1000;
  max := 5;
  message := "Too many requests, please try again after a minute.";
  standardHeaders := true;
  legacyHeaders := false
|}.

(** The handler of [/api/gemini-proxy] up to its [await]. *)
Definition gemini_proxy (env : environment) (usageTracker : gmap string nat)
    (b : body) : progress :=
  let userId := userId b in
  if negb (truthy userId) then Done missing_user_id
  else
    let userUsage := usage usageTracker userId in
    if (FREE_TRIAL_LIMIT <=? userUsage)%nat then Done quota_exhausted
    else Await (GenerateContent (GEMINI_API_KEY env) (geminiPayload b))
               (Suspended userId userUsage).

(** The rest of the handler, from the outcome of the two awaits. *)
Definition gemini_proxy_resume (k : suspended) (r : fetch_result)
    (usageTracker : gmap string nat) : gmap string nat * response :=
  match r with
  | Parsed st data =>
      if ok st
      then (<[property_key (held_userId k) := S (held_userUsage k)]> usageTracker,
            Response 200 (Data data))
      else (usageTracker, Response st (Data data))
  | Rejected _ | Unparsable _ _ => (usageTracker, proxy_error)
  end.

End ServerJs.

(** ** The two-endpoint server *)

Module Part000.

Definition apiLimiter : limiter_options := {|
  windowMs := 1 * 60 * 1000;
  max := 10;
  message := "Too many requests, please try again after a minute.";
  standardHeaders := true;
  legacyHeaders := false
|}.

(** Answers the request itself ([inl]), or sets [req.userUsage] and calls
    [next()] ([inr]). *)
Definition usageAndAuthMiddleware (usageTracker : gmap string nat) (b : body)
    : response + nat :=
  let userId := userId b in
  if negb (truthy userId) then inl missing_user_id
  else
    let userUsage := usage usageTracker userId in
    if (FREE_TRIAL_LIMIT <=? userUsage)%nat then inl quota_exhausted
    else inr userUsage.

(** The handler of [/api/gemini-proxy] up to its [await]. *)
Definition gemini_proxy (env : environment) (b : body) (userUsage : nat)
    : progress :=
  Await (GenerateContent (GEMINI_API_KEY env) (geminiPayload b))
        (Suspended (userId b) userUsage).

Definition gemini_proxy_resume (k : suspended) (r : fetch_result)
    (usageTracker : gmap string nat) : gmap string nat * response :=
  match r with
  | Parsed st data =>
      if ok st
      then (<[property_key (held_userId k) := S (held_userUsage k)]> usageTracker,
            Response 200 (Data data))
      else (usageTracker, Response st (Data data))
  | Rejected _ | Unparsable _ _ => (usageTracker, proxy_error)
  end.

(** [!searchPayload || !searchPayload.query] *)
Definition no_query (p : option search_payload) : bool :=
  match p with
  | Some p => negb (truthy (query p))
  | None => true
  end.

(** The handler of [/api/search-proxy] up to its [await].  The last
    [match] is the destructuring of [searchPayload], which the first test
    has shown to be present.  Building the URL can itself throw, on a
    query that [encodeURIComponent] refuses; that exit is not modelled,
    so of a search the properties below say when no call is made and
    what a call carries, not that one is made. *)
Definition search_proxy (env : environment) (b : body) (userUsage : nat)
    : progress :=
  if no_query (searchPayload b) then Done missing_query
  else if negb (truthy (SEARCH_API_KEY env)) || negb (truthy (CX_ID env))
  then Done configuration_error
  else
    match searchPayload b with
    | Some p =>
        Await (CustomSearch (SEARCH_API_KEY env) (CX_ID env)
                 (property_key (query p)) (or_one (startIndex p)))
              (Suspended (userId b) userUsage)
    | None => Done missing_query
    end.

Definition search_proxy_resume (k : suspended) (r : fetch_result)
    (usageTracker : gmap string nat) : gmap string nat * response :=
  match r with
  | Parsed st data =>
      if ok st
      then (<[property_key (held_userId k) := S (held_userUsage k)]> usageTracker,
            Response 200 (Data data))
      else (usageTracker, Response st (Data data))
  | Rejected _ | Unparsable _ _ => (usageTracker, proxy_error)
  end.

End Part000.

(** ** A server process *)

Inductive variant := server_js | part_000.

Inductive endpoint := gemini_proxy | search_proxy.

(** [app.post(path, apiLimiter, ...)]: the routes that a source registers. *)
Definition registered (v : variant) (ep : endpoint) : bool :=
  match v, ep with
  | server_js, search_proxy => false
  | _, _ => true
  end.

Definition apiLimiter (v : variant) : limiter_options :=
  match v with
  | server_js => ServerJs.apiLimiter
  | part_000 => Part000.apiLimiter
  end.

(** What runs on a route once [apiLimiter] has called [next()]. *)
Definition after_limiter (v : variant) (ep : endpoint) (env : environment)
    (usageTracker : gmap string nat) (b : body) : progress :=
  match v with
  | server_js => ServerJs.gemini_proxy env usageTracker b
  | part_000 =>
      match Part000.usageAndAuthMiddleware usageTracker b with
      | inl r => Done r
      | inr userUsage =>
          match ep with
          | gemini_proxy => Part000.gemini_proxy env b userUsage
          | search_proxy => Part000.search_proxy env b userUsage
          end
      end
  end.

Definition resume (v : variant) (ep : endpoint)
    : suspended -> fetch_result -> gmap string nat -> gmap string nat * response :=
  match v, ep with
  | server_js, _ => ServerJs.gemini_proxy_resume
  | part_000, gemini_proxy => Part000.gemini_proxy_resume
  | part_000, search_proxy => Part000.search_proxy_resume
  end.

(** The module-level state of a process, and the handlers that are
    suspended on their upstream call. *)
Record state := State {
  hits : gmap (option string) window_entry;
  usageTracker : gmap string nat;
  in_flight : gmap nat (endpoint * suspended);
  next_id : nat
}.

Definition start : state := State ∅ ∅ ∅ 0.

Inductive event :=
  | Arrive (now : Z) (ep : endpoint) (b : body)
  | Settle (id : nat) (r : fetch_result).

Inductive output :=
  | NoRoute
  | Replied (r : response)
  | Fetching (id : nat) (c : upstream_call)
  | Stale
  | Finished (id : nat) (r : response).

Definition step (v : variant) (env : environment) (s : state) (e : event)
    : state * output :=
  match e with
  | Arrive now ep b =>
      if registered v ep then
        let '(pass, hits') := rateLimit (apiLimiter v) (hits s) (userId b) now in
        if pass then
          match after_limiter v ep env (usageTracker s) b with
          | Done r =>
              (State hits' (usageTracker s) (in_flight s) (next_id s), Replied r)
          | Await c k =>
              (State hits' (usageTracker s)
                 (<[next_id s := (ep, k)]> (in_flight s)) (S (next_id s)),
               Fetching (next_id s) c)
          end
        else
          (State hits' (usageTracker s) (in_flight s) (next_id s),
           Replied (rate_limited (apiLimiter v)))
      else (s, NoRoute)
  | Settle id r =>
      match in_flight s !! id with
      | Some (ep, k) =>
          let '(usageTracker', res) := resume v ep k r (usageTracker s) in
          (State (hits s) usageTracker' (delete id (in_flight s)) (next_id s),
           Finished id res)
      | None => (s, Stale)
      end
  end.

(** A process fed a list of events; the outputs come in the same order. *)
Fixpoint run (v : variant) (env : environment) (s : state) (es : list event)
    : state * list output :=
  match es with
  | [] => (s, [])
  | e :: es =>
      let '(s1, o) := step v env s e in
      let '(s2, os) := run v env s1 es in
      (s2, o :: os)
  end.

(** A request served with nothing else in between: it arrives and, when
    it goes upstream, the reply [r] settles it at once. *)
Record exchange := Exchange {
  at_time : Z;
  on : endpoint;
  request : body;
  upstream : fetch_result
}.

Definition serve (v : variant) (env : environment) (s : state) (x : exchange)
    : state * output :=
  let '(s1, o) := step v env s (Arrive (at_time x) (on x) (request x)) in
  match o with
  | Fetching id _ => step v env s1 (Settle id (upstream x))
  | _ => (s1, o)
  end.

Fixpoint serve_all (v : variant) (env : environment) (s : state)
    (xs : list exchange) : state * list output :=
  match xs with
  | [] => (s, [])
  | x :: xs =>
      let '(s1, o) := serve v env s x in
      let '(s2, os) := serve_all v env s1 xs in
      (s2, o :: os)
  end.

(** The outputs next to the events that caused them. *)
Definition transcript (es : list event) (os : list output)
    : list (event * output) :=
  zip es os.

(** The number of requests keyed by [key] that went upstream and arrived
    at a time accepted by [p]. *)
Definition dispatched_at (key : option string) (p : Z -> bool)
    (eo : event * output) : bool :=
  match eo with
  | (Arrive now _ b, Fetching _ _) => bool_decide (userId b = key) && p now
  | _ => false
  end.

Definition dispatched (key : option string) (p : Z -> bool)
    (t : list (event * output)) : nat :=
  length (List.filter (dispatched_at key p) t).

Definition within (from len : Z) (now : Z) : bool :=
  (from <=? now)%Z && (now <? from + len)%Z.

(** The handler took the [if (apiResponse.ok)] branch. *)
Definition relayed_success (x : exchange) (o : output) : bool :=
  match o, upstream x with
  | Finished _ _, Parsed st _ => ok st
  | _, _ => false
  end.

Fixpoint successes (u : string) (xs : list exchange) (os : list output) : nat :=
  match xs, os with
  | x :: xs, o :: os =>
      (if bool_decide (userId (request x) = Some u) && relayed_success x o
       then 1 else 0) + successes u xs os
  | _, _ => 0
  end.

(** Both awaits of a handler sit in its [try] block: a rejected [fetch]
    and a body that does not parse both end in the [catch]. *)
Definition threw (r : fetch_result) : bool :=
  match r with
  | Parsed _ _ => false
  | Rejected _ | Unparsable _ _ => true
  end.

(** The entry that a check at time [now] works on: the stored one while
    its window is open, a fresh one otherwise. *)
Definition open_entry (o : limiter_options)
    (store : gmap (option string) window_entry)
    (key : option string) (now : Z) : window_entry :=
  match store !! key with
  | Some e => if (windowMs o <=? now - windowStart e)%Z then WindowEntry now 0 else e
  | None => WindowEntry now 0
  end.

(** What the store of the limiter knows about the requests so far: a key
    without an entry has sent nothing upstream; the entry of a key counts
    at least the requests of that key that went upstream since the window
    opened, the count is within the maximum, and no request of the key
    lies beyond the end of the window. *)
Definition window_accounted (v : variant) (s : state)
    (t : list (event * output)) : Prop :=
  forall key,
    match hits s !! key with
    | None => dispatched key (fun _ => true) t = 0
    | Some e =>
        count e <= max (apiLimiter v) /\
        dispatched key (Z.leb (windowStart e)) t <= count e /\
        dispatched key (Z.leb (windowStart e + windowMs (apiLimiter v))) t = 0
    end.

(** The store of the limiter as the arrivals alone determine it: every
    request on a registered route is put through [rateLimit] under its
    [userId], whatever happens to it afterwards. *)
Fixpoint limiter_only (v : variant)
    (store : gmap (option string) window_entry) (es : list event)
    : gmap (option string) window_entry :=
  match es with
  | [] => store
  | Arrive now ep b :: es =>
      limiter_only v
        (if registered v ep
         then (rateLimit (apiLimiter v) store (userId b) now).2
         else store)
        es
  | Settle _ _ :: es => limiter_only v store es
  end.


(** No count is above the limit, and no suspended handler holds a usage
    that has reached it. *)
Definition ledger_bounded (s : state) : Prop :=
  (forall u n, usageTracker s !! u = Some n -> n <= FREE_TRIAL_LIMIT) /\
  (forall id ep k, in_flight s !! id = Some (ep, k) ->
     held_userUsage k < FREE_TRIAL_LIMIT).


(** The event is the reply that makes a request of [u] a relayed success:
    it settles a suspended handler that holds the identity [u], with a
    parsed body and a status in 200..299. *)
Definition success_of (s : state) (e : event) (u : string) : bool :=
  match e with
  | Settle id (Parsed st _) =>
      match in_flight s !! id with
      | Some (_, k) => bool_decide (held_userId k = Some u) && ok st
      | None => false
      end
  | _ => false
  end.

(** The relayed successes of [u] in a run from [s]. *)
Fixpoint relayed_successes (v : variant) (env : environment) (s : state)
    (es : list event) (u : string) : nat :=
  match es with
  | [] => 0
  | e :: es =>
      (if success_of s e u then 1 else 0)
      + relayed_successes v env (step v env s e).1 es u
  end.

(** Neither the count of [u] nor the usage that a suspended handler of
    [u] holds is above [n], and every suspended handler has an identity. *)
Definition counted_within (u : string) (n : nat) (s : state) : Prop :=
  usage (usageTracker s) (Some u) <= n /\
  forall id ep k, in_flight s !! id = Some (ep, k) ->
    (exists u', held_userId k = Some u') /\
    (held_userId k = Some u -> held_userUsage k <= n).

(** ** The upstream reply as text *)

(** A reply of the upstream as it arrives: its status and the text of
    its body. *)
Record upstream_reply := UpstreamReply {
  reply_status : Z;
  reply_body : string
}.

(** [await apiResponse.json()] on a reply that has arrived.  [parse]
    stands for the JSON parser of the runtime, which gives the value of
    a text or throws. *)
Definition read_body (parse : string -> option json) (r : upstream_reply)
    : fetch_result :=
  match parse (reply_body r) with
  | Some data => Parsed (reply_status r) data
  | None => Unparsable (reply_status r) "SyntaxError"
  end.

(** ** The ledger as a plain object *)

(** The names that the object [usageTracker = {}] inherits from
    [Object.prototype]. *)
Definition inherited (u : string) : bool :=
  existsb (String.eqb u)
    ["constructor"; "__defineGetter__"; "__defineSetter__"; "hasOwnProperty";
     "__lookupGetter__"; "__lookupSetter__"; "isPrototypeOf";
     "propertyIsEnumerable"; "toString"; "valueOf"; "__proto__";
     "toLocaleString"].

(** What [usageTracker[userId]] can hold or yield: a count, or a value
    that converts to no number: an inherited function or object, or the
    text that [+ 1] makes of one. *)
Inductive js_val :=
  | Number (n : nat)
  | NotANumber.

Module Proto.

(** [usageTracker[userId] || 0]: an own property, else an inherited
    member, else 0. *)
Definition read (usageTracker : gmap string js_val) (userId : option string)
    : js_val :=
  match usageTracker !! property_key userId with
  | Some v => v
  | None => if inherited (property_key userId) then NotANumber else Number 0
  end.

(** [userUsage >= FREE_TRIAL_LIMIT]: false for what converts to no number. *)
Definition at_limit (userUsage : js_val) : bool :=
  match userUsage with
  | Number n => (FREE_TRIAL_LIMIT <=? n)%nat
  | NotANumber => false
  end.

(** [userUsage + 1]: addition on a count, concatenation otherwise. *)
Definition plus_one (userUsage : js_val) : js_val :=
  match userUsage with
  | Number n => Number (S n)
  | NotANumber => NotANumber
  end.

(** [usageTracker[userId] = v]: an own property is set, except under
    [__proto__], whose setter ignores a value that is no object. *)
Definition assign (usageTracker : gmap string js_val)
    (userId : option string) (v : js_val) : gmap string js_val :=
  if String.eqb (property_key userId) "__proto__" then usageTracker
  else <[property_key userId := v]> usageTracker.

(** The locals of a handler that are live across its [await]. *)
Record kept := Kept {
  kept_userId : option string;
  kept_userUsage : js_val
}.

Inductive progress :=
  | Done (r : response)
  | Await (c : upstream_call) (k : kept).

(** src/server.js, the handler of [/api/gemini-proxy] up to its [await]. *)
Definition server_js_handler (env : environment)
    (usageTracker : gmap string js_val) (b : body) : progress :=
  let userId := userId b in
  if negb (truthy userId) then Done missing_user_id
  else
    let userUsage := read usageTracker userId in
    if at_limit userUsage then Done quota_exhausted
    else Await (GenerateContent (GEMINI_API_KEY env) (geminiPayload b))
               (Kept userId userUsage).

(** The two-endpoint server: [usageAndAuthMiddleware]. *)
Definition usageAndAuthMiddleware (usageTracker : gmap string js_val)
    (b : body) : response + js_val :=
  let userId := userId b in
  if negb (truthy userId) then inl missing_user_id
  else
    let userUsage := read usageTracker userId in
    if at_limit userUsage then inl quota_exhausted
    else inr userUsage.

(** The two-endpoint server: the handler of [/api/gemini-proxy] up to
    its [await]. *)
Definition gemini_handler (env : environment) (b : body) (userUsage : js_val)
    : progress :=
  Await (GenerateContent (GEMINI_API_KEY env) (geminiPayload b))
        (Kept (userId b) userUsage).

(** The two-endpoint server: the handler of [/api/search-proxy] up to
    its [await]. *)
Definition search_handler (env : environment) (b : body) (userUsage : js_val)
    : progress :=
  if Part000.no_query (searchPayload b) then Done missing_query
  else if negb (truthy (SEARCH_API_KEY env)) || negb (truthy (CX_ID env))
  then Done configuration_error
  else
    match searchPayload b with
    | Some p =>
        Await (CustomSearch (SEARCH_API_KEY env) (CX_ID env)
                 (property_key (query p)) (or_one (startIndex p)))
              (Kept (userId b) userUsage)
    | None => Done missing_query
    end.

(** The [try] block of a handler from the outcome of its two awaits, the
    same text in all three handlers. *)
Definition settle (k : kept) (r : fetch_result)
    (usageTracker : gmap string js_val) : gmap string js_val * response :=
  match r with
  | Parsed st data =>
      if ok st
      then (assign usageTracker (kept_userId k) (plus_one (kept_userUsage k)),
            Response 200 (Data data))
      else (usageTracker, Response st (Data data))
  | Rejected _ | Unparsable _ _ => (usageTracker, proxy_error)
  end.

Definition after_limiter (v : variant) (ep : endpoint) (env : environment)
    (usageTracker : gmap string js_val) (b : body) : progress :=
  match v with
  | server_js => server_js_handler env usageTracker b
  | part_000 =>
      match usageAndAuthMiddleware usageTracker b with
      | inl r => Done r
      | inr userUsage =>
          match ep with
          | gemini_proxy => gemini_handler env b userUsage
          | search_proxy => search_handler env b userUsage
          end
      end
  end.

Record state := State {
  hits : gmap (option string) window_entry;
  usageTracker : gmap string js_val;
  in_flight : gmap nat (endpoint * kept);
  next_id : nat
}.

Definition start : state := State ∅ ∅ ∅ 0.

Definition step (v : variant) (env : environment) (s : state) (e : event)
    : state * output :=
  match e with
  | Arrive now ep b =>
      if registered v ep then
        let '(pass, hits') := rateLimit (apiLimiter v) (hits s) (userId b) now in
        if pass then
          match after_limiter v ep env (usageTracker s) b with
          | Done r =>
              (State hits' (usageTracker s) (in_flight s) (next_id s), Replied r)
          | Await c k =>
              (State hits' (usageTracker s)
                 (<[next_id s := (ep, k)]> (in_flight s)) (S (next_id s)),
               Fetching (next_id s) c)
          end
        else
          (State hits' (usageTracker s) (in_flight s) (next_id s),
           Replied (rate_limited (apiLimiter v)))
      else (s, NoRoute)
  | Settle id r =>
      match in_flight s !! id with
      | Some (ep, k) =>
          let '(usageTracker', res) := settle k r (usageTracker s) in
          (State (hits s) usageTracker' (delete id (in_flight s)) (next_id s),
           Finished id res)
      | None => (s, Stale)
      end
  end.

Fixpoint run (v : variant) (env : environment) (s : state) (es : list event)
    : state * list output :=
  match es with
  | [] => (s, [])
  | e :: es =>
      let '(s1, o) := step v env s e in
      let '(s2, os) := run v env s1 es in
      (s2, o :: os)
  end.

Definition serve (v : variant) (env : environment) (s : state) (x : exchange)
    : state * output :=
  let '(s1, o) := step v env s (Arrive (at_time x) (on x) (request x)) in
  match o with
  | Fetching id _ => step v env s1 (Settle id (upstream x))
  | _ => (s1, o)
  end.

Fixpoint serve_all (v : variant) (env : environment) (s : state)
    (xs : list exchange) : state * list output :=
  match xs with
  | [] => (s, [])
  | x :: xs =>
      let '(s1, o) := serve v env s x in
      let '(s2, os) := serve_all v env s1 xs in
      (s2, o :: os)
  end.

End Proto.

(** The first model seen as a state of the second: every count is a
    number. *)
Definition as_object (s : state) : Proto.state :=
  Proto.State (hits s) (Number <$> usageTracker s)
    ((fun '(ep, k) =>
        (ep, Proto.Kept (held_userId k) (Number (held_userUsage k))))
       <$> in_flight s)
    (next_id s).

(** The identity of an arriving request names no inherited member. *)
Definition own_identity (e : event) : Prop :=
  match e with
  | Arrive _ _ b => inherited (property_key (userId b)) = false
  | Settle _ _ => True
  end.

(** No suspended handler holds an identity that names an inherited
    member. *)
Definition own_in_flight (s : state) : Prop :=
  forall id ep k, in_flight s !! id = Some (ep, k) ->
    inherited (property_key (held_userId k)) = false.

(** Under every inherited name the ledger holds nothing or no number,
    and so does every suspended handler with such an identity. *)
Definition inherited_not_counted (s : Proto.state) : Prop :=
  (forall u, inherited u = true ->
     Proto.usageTracker s !! u = None \/
     Proto.usageTracker s !! u = Some NotANumber) /\
  (forall id ep k, Proto.in_flight s !! id = Some (ep, k) ->
     inherited (property_key (Proto.kept_userId k)) = true ->
     Proto.kept_userUsage k = NotANumber).

(** ** Sample inputs *)

Definition env_full : environment :=
  Environment (Some "gemini-key") (Some "search-key") (Some "cx").

Definition env_empty : environment := Environment None None None.

Definition generate (u : option string) : body := Body u (Some "{}") None.

Definition search_without_query (u : option string) : body :=
  Body u None (Some (SearchPayload None None)).

Definition search_for (u : option string) (q : string) : body :=
  Body u None (Some (SearchPayload (Some q) None)).

(** Twenty requests of one user, five a minute, each a relayed success. *)
Definition twenty_successes : list exchange :=
  List.flat_map
    (fun minute : Z =>
       replicate 5
         (Exchange (minute * 60000) gemini_proxy (generate (Some "u1"))
            (Parsed 200 "{}")))
    [0; 1; 2; 3]%Z.

(** Six requests of one user inside ten seconds. *)
Definition six_in_ten_seconds : list event :=
  List.map (fun now : Z => Arrive now gemini_proxy (generate (Some "u2")))
    [0; 2000; 4000; 6000; 8000; 10000]%Z.

(** Twenty-one requests of one user, sixty-one seconds apart, each a
    relayed success if it gets that far. *)
Definition twenty_one_spaced : list exchange :=
  List.map
    (fun i : nat =>
       Exchange (Z.of_nat i * 61000) gemini_proxy (generate (Some "u1"))
         (Parsed 200 "{}"))
    (seq 0 21).

(** A reader of bodies for the samples: one text with its value. *)
Definition sample_parse (text : string) : option json :=
  if String.eqb text "[ 403 ,  1 ]" then Some "[403,1]" else None.

(** Twenty-one requests under an inherited name, sixty-one seconds
    apart, each a relayed success. *)
Definition twenty_one_inherited : list exchange :=
  List.map
    (fun i : nat =>
       Exchange (Z.of_nat i * 61000) gemini_proxy (generate (Some "constructor"))
         (Parsed 200 "{}"))
    (seq 0 21).

(** ** Elementary facts *)

Lemma resume_same (v : variant) (ep : endpoint) :
  resume v ep = ServerJs.gemini_proxy_resume.
Proof. destruct v, ep; reflexivity. Qed.

Lemma truthy_Some (v : option string) :
  truthy v = true -> exists u, v = Some u /\ u <> "".
Proof.
  destruct v as [u|]; simpl; [|discriminate].
  intros H. exists u. split; [reflexivity|].
  intros ->. discriminate.
Qed.

Lemma truthy_Some_ne (u : string) : u <> "" -> truthy (Some u) = true.
Proof.
  intros H. simpl. destruct (String.eqb_spec u ""); [contradiction|reflexivity].
Qed.

Lemma window_positive (v : variant) : (0 < windowMs (apiLimiter v))%Z.
Proof. destruct v; reflexivity. Qed.

(** ** What a route does once the limiter has let a request through *)

Lemma after_limiter_no_identity v ep env ut b :
  truthy (userId b) = false ->
  after_limiter v ep env ut b = Done missing_user_id.
Proof.
  intros H. destruct v; simpl.
  - unfold ServerJs.gemini_proxy. rewrite H. reflexivity.
  - unfold Part000.usageAndAuthMiddleware. rewrite H. reflexivity.
Qed.

Lemma after_limiter_quota v ep env ut b :
  truthy (userId b) = true ->
  FREE_TRIAL_LIMIT <= usage ut (userId b) ->
  after_limiter v ep env ut b = Done quota_exhausted.
Proof.
  intros H Hq. apply Nat.leb_le in Hq.
  destruct v; simpl.
  - unfold ServerJs.gemini_proxy. rewrite H, Hq. reflexivity.
  - unfold Part000.usageAndAuthMiddleware. rewrite H, Hq. reflexivity.
Qed.

Lemma after_limiter_gemini v env ut b :
  truthy (userId b) = true ->
  usage ut (userId b) < FREE_TRIAL_LIMIT ->
  after_limiter v gemini_proxy env ut b =
    Await (GenerateContent (GEMINI_API_KEY env) (geminiPayload b))
          (Suspended (userId b) (usage ut (userId b))).
Proof.
  intros H Hq. apply Nat.leb_gt in Hq.
  destruct v; simpl.
  - unfold ServerJs.gemini_proxy. rewrite H, Hq. reflexivity.
  - unfold Part000.usageAndAuthMiddleware. rewrite H, Hq. reflexivity.
Qed.

Lemma after_limiter_search_no_query env ut b :
  truthy (userId b) = true ->
  usage ut (userId b) < FREE_TRIAL_LIMIT ->
  Part000.no_query (searchPayload b) = true ->
  after_limiter part_000 search_proxy env ut b = Done missing_query.
Proof.
  intros H Hq Hn. apply Nat.leb_gt in Hq. simpl.
  unfold Part000.usageAndAuthMiddleware. rewrite H, Hq. simpl.
  unfold Part000.search_proxy. rewrite Hn. reflexivity.
Qed.

(** Whatever a route answers or calls, what it holds across the await is
    the identity of the request, which is present, and the usage it read. *)
Lemma after_limiter_await v ep env ut b c k :
  after_limiter v ep env ut b = Await c k ->
  truthy (userId b) = true /\
  usage ut (userId b) < FREE_TRIAL_LIMIT /\
  k = Suspended (userId b) (usage ut (userId b)).
Proof.
  destruct (truthy (userId b)) eqn:H.
  2:{ rewrite after_limiter_no_identity by assumption. discriminate. }
  destruct (Nat.leb_spec FREE_TRIAL_LIMIT (usage ut (userId b))) as [Hq|Hq].
  { rewrite after_limiter_quota by assumption. discriminate. }
  assert (Hb := proj2 (Nat.leb_gt _ _) Hq).
  destruct v; simpl.
  - unfold ServerJs.gemini_proxy. rewrite H, Hb. simpl.
    intros [= <- <-]. auto.
  - unfold Part000.usageAndAuthMiddleware. rewrite H, Hb. simpl.
    destruct ep; simpl.
    + unfold Part000.gemini_proxy. intros [= <- <-]. auto.
    + unfold Part000.search_proxy.
      destruct (Part000.no_query _); [discriminate|].
      destruct (_ || _); [discriminate|].
      destruct (searchPayload b); [|discriminate].
      intros [= <- <-]. auto.
Qed.

(** A search without a query never goes upstream. *)
Lemma after_limiter_search_done env ut b :
  Part000.no_query (searchPayload b) = true ->
  after_limiter part_000 search_proxy env ut b =
    Done (if truthy (userId b)
          then if (FREE_TRIAL_LIMIT <=? usage ut (userId b))%nat
               then quota_exhausted else missing_query
          else missing_user_id).
Proof.
  intros Hn.
  destruct (truthy (userId b)) eqn:H.
  - destruct (Nat.leb_spec FREE_TRIAL_LIMIT (usage ut (userId b))).
    + apply after_limiter_quota; assumption.
    + apply after_limiter_search_no_query; assumption.
  - apply after_limiter_no_identity; assumption.
Qed.

(** ** The order of the checks *)

(** C1 (as amended): on either endpoint, a request whose userId is absent
    or empty first passes through the rate limiter, which counts it under
    that absent or empty key; when the limiter lets it through it is
    answered 400 "Missing user ID." whatever the ledger holds, otherwise it
    is answered 429 with the rate-limit message.  Either way no upstream
    call is made and the ledger is left as it was. *)
Theorem missing_identity_after_limiter v ep env s now b :
  registered v ep = true ->
  truthy (userId b) = false ->
  step v env s (Arrive now ep b) =
    (State (rateLimit (apiLimiter v) (hits s) (userId b) now).2
       (usageTracker s) (in_flight s) (next_id s),
     Replied (if (rateLimit (apiLimiter v) (hits s) (userId b) now).1
              then missing_user_id
              else rate_limited (apiLimiter v))).
Proof.
  intros Hr Hu. simpl. rewrite Hr.
  destruct (rateLimit _ _ _ _) as [[] hits']; simpl; [|reflexivity].
  rewrite after_limiter_no_identity by assumption. reflexivity.
Qed.

Lemma missing_identity_after_limiter_witness :
  registered part_000 search_proxy = true /\
  truthy (userId (search_for None "cats")) = false /\
  step part_000 env_full start (Arrive 0 search_proxy (search_for None "cats")) =
    (State (rateLimit Part000.apiLimiter ∅ None 0).2 ∅ ∅ 0,
     Replied missing_user_id).
Proof.
  split; [reflexivity|]. split; [reflexivity|].
  apply (missing_identity_after_limiter part_000 search_proxy env_full start 0
           (search_for None "cats")); reflexivity.
Defined.

(** C1 (as stated) fails: in src/server.js, the sixth request without a
    userId inside one minute is answered 429 by the limiter, not 400. *)
Lemma missing_identity_rate_limited :
  truthy (userId (generate None)) = false /\
  (step server_js env_full
     (run server_js env_full start
        (replicate 5 (Arrive 0 gemini_proxy (generate None)))).1
     (Arrive 1000 gemini_proxy (generate None))).2 =
    Replied (Response 429
      (ErrorBody "Too many requests, please try again after a minute.")) /\
  status (Response 429
      (ErrorBody "Too many requests, please try again after a minute.")) <> 400%Z.
Proof. split; [reflexivity|]. split; [vm_compute; reflexivity|discriminate]. Qed.

(** C8 (as amended): a search request whose searchPayload is absent, or
    whose query is absent or empty, never goes upstream and never changes
    the ledger; it is answered 400 unless an earlier check of the route
    answers first: 429 from the rate limiter, or 429 from the quota check
    of an identified user whose trial is used up. *)
Theorem search_without_query_answer env s now b :
  Part000.no_query (searchPayload b) = true ->
  step part_000 env s (Arrive now search_proxy b) =
    (State (rateLimit Part000.apiLimiter (hits s) (userId b) now).2
       (usageTracker s) (in_flight s) (next_id s),
     Replied
       (if (rateLimit Part000.apiLimiter (hits s) (userId b) now).1
        then if truthy (userId b)
             then if (FREE_TRIAL_LIMIT <=? usage (usageTracker s) (userId b))%nat
                  then quota_exhausted
                  else missing_query
             else missing_user_id
        else rate_limited Part000.apiLimiter)).
Proof.
  intros Hn. simpl.
  destruct (rateLimit _ _ _ _) as [[] hits']; [|reflexivity].
  change (Part000.apiLimiter) with (apiLimiter part_000).
  pose proof (after_limiter_search_done env (usageTracker s) b Hn) as H.
  simpl in H. simpl. rewrite H. reflexivity.
Qed.

Lemma search_without_query_answer_witness :
  Part000.no_query (searchPayload (search_without_query (Some "u3"))) = true /\
  step part_000 env_full start
    (Arrive 0 search_proxy (search_without_query (Some "u3"))) =
    (State (rateLimit Part000.apiLimiter ∅ (Some "u3") 0).2 ∅ ∅ 0,
     Replied missing_query) /\
  status missing_query = 400%Z.
Proof.
  split; [reflexivity|]. split; [|reflexivity].
  apply (search_without_query_answer env_full start 0
           (search_without_query (Some "u3"))); reflexivity.
Defined.

(** C8 (as stated) fails: the eleventh search without a query that one
    user sends inside a minute is answered 429, not 400. *)
Lemma search_without_query_rate_limited :
  Part000.no_query (searchPayload (search_without_query (Some "u3"))) = true /\
  (step part_000 env_full
     (run part_000 env_full start
        (replicate 10 (Arrive 0 search_proxy (search_without_query (Some "u3"))))).1
     (Arrive 1000 search_proxy (search_without_query (Some "u3")))).2 =
    Replied (Response 429
      (ErrorBody "Too many requests, please try again after a minute.")) /\
  status (Response 429
      (ErrorBody "Too many requests, please try again after a minute.")) <> 400%Z.
Proof. split; [reflexivity|]. split; [vm_compute; reflexivity|discriminate]. Qed.

(** C9: on every registered route of both sources, a request that the
    limiter rejects is answered 429 with the rate-limit message, and a
    request of an identified user that passes the limiter with a used-up
    trial is answered 429 with the free-trial message; both limiters turn
    the standard headers on and the legacy headers off. *)
Theorem rejection_messages v ep env s now b :
  registered v ep = true ->
  ((rateLimit (apiLimiter v) (hits s) (userId b) now).1 = false ->
   (step v env s (Arrive now ep b)).2 =
     Replied (Response 429
       (ErrorBody "Too many requests, please try again after a minute."))) /\
  ((rateLimit (apiLimiter v) (hits s) (userId b) now).1 = true ->
   truthy (userId b) = true ->
   FREE_TRIAL_LIMIT <= usage (usageTracker s) (userId b) ->
   (step v env s (Arrive now ep b)).2 =
     Replied (Response 429
       (ErrorBody "Free trial limit reached. Please add your own API key in the settings to continue."))) /\
  standardHeaders (apiLimiter v) = true /\
  legacyHeaders (apiLimiter v) = false.
Proof.
  intros Hr. repeat split.
  - intros Hp. simpl. rewrite Hr.
    destruct (rateLimit _ _ _ _) as [pass hits']. simpl in Hp. subst pass.
    destruct v; reflexivity.
  - intros Hp Hu Hq. simpl. rewrite Hr.
    destruct (rateLimit _ _ _ _) as [pass hits']. simpl in Hp. subst pass.
    rewrite after_limiter_quota by assumption. reflexivity.
  - destruct v; reflexivity.
  - destruct v; reflexivity.
Qed.

Lemma rejection_messages_witness :
  registered server_js gemini_proxy = true /\
  (step server_js env_full
     (run server_js env_full start
        (replicate 5 (Arrive 0 gemini_proxy (generate (Some "u2"))))).1
     (Arrive 10000 gemini_proxy (generate (Some "u2")))).2 =
    Replied (Response 429
      (ErrorBody "Too many requests, please try again after a minute.")).
Proof.
  split; [reflexivity|].
  apply (rejection_messages server_js gemini_proxy env_full
           (run server_js env_full start
              (replicate 5 (Arrive 0 gemini_proxy (generate (Some "u2"))))).1
           10000 (generate (Some "u2")) eq_refl).
  vm_compute. reflexivity.
Defined.

(** ** The reply of the upstream *)

(** C5 (as amended): when the upstream answers a request in flight with a
    status outside 200..299 and a body that parses as JSON, the endpoint
    relays that status and, as body, the value that the body parsed to,
    written out again by [res.json]: the parsed value, not the text that
    arrived.  The ledger is left as it was. *)
Theorem upstream_error_relayed parse v env s id ep k reply data :
  in_flight s !! id = Some (ep, k) ->
  ok (reply_status reply) = false ->
  parse (reply_body reply) = Some data ->
  step v env s (Settle id (read_body parse reply)) =
    (State (hits s) (usageTracker s) (delete id (in_flight s)) (next_id s),
     Finished id (Response (reply_status reply) (Data data))).
Proof.
  intros Hk Hok Hp. unfold read_body. rewrite Hp.
  simpl. rewrite Hk, resume_same. simpl. rewrite Hok. reflexivity.
Qed.

Lemma upstream_error_relayed_witness :
  ok 403 = false /\
  sample_parse "[ 403 ,  1 ]" = Some "[403,1]" /\
  step part_000 env_full
    (run part_000 env_full start
       [Arrive 0 search_proxy (search_for (Some "u1") "cats")]).1
    (Settle 0 (read_body sample_parse (UpstreamReply 403 "[ 403 ,  1 ]"))) =
    (State (rateLimit Part000.apiLimiter ∅ (Some "u1") 0).2 ∅
       (delete 0 {[0 := (search_proxy, Suspended (Some "u1") 0)]}) 1,
     Finished 0 (Response 403 (Data "[403,1]"))).
Proof.
  split; [reflexivity|]. split; [reflexivity|].
  apply (upstream_error_relayed sample_parse part_000 env_full
           (run part_000 env_full start
              [Arrive 0 search_proxy (search_for (Some "u1") "cats")]).1
           0 search_proxy (Suspended (Some "u1") 0)
           (UpstreamReply 403 "[ 403 ,  1 ]") "[403,1]");
    reflexivity.
Defined.

(** C5 (as stated) fails: an upstream answer 503 whose body is not JSON is
    not relayed; the client gets the proxy's own 500. *)
Lemma upstream_error_not_relayed :
  (run part_000 env_full start
     [Arrive 0 gemini_proxy (generate (Some "u1"));
      Settle 0 (Unparsable 503 "Unexpected token < in JSON")]).2 =
    [Fetching 0 (GenerateContent (Some "gemini-key") (Some "{}"));
     Finished 0 (Response 500 (ErrorBody "An error occurred on the proxy server."))] /\
  ok 503 = false /\
  status (Response 500 (ErrorBody "An error occurred on the proxy server.")) <> 503%Z.
Proof. split; [vm_compute; reflexivity|]. split; [reflexivity|discriminate]. Qed.

(** C6: when the upstream call of a request in flight fails (the fetch is
    rejected, or an exception is thrown while the reply is read), the
    endpoint answers 500 with one fixed message, the same whatever the
    cause, and leaves the ledger as it was. *)
Theorem transport_failure_answer v env s id ep k r :
  in_flight s !! id = Some (ep, k) ->
  threw r = true ->
  step v env s (Settle id r) =
    (State (hits s) (usageTracker s) (delete id (in_flight s)) (next_id s),
     Finished id (Response 500 (ErrorBody "An error occurred on the proxy server."))).
Proof.
  intros Hk Ht. simpl. rewrite Hk, resume_same.
  destruct r; [reflexivity|reflexivity|discriminate].
Qed.

Lemma transport_failure_answer_witness :
  threw (Rejected "ETIMEDOUT 142.250.1.95:443") = true /\
  step server_js env_full
    (run server_js env_full start
       [Arrive 0 gemini_proxy (generate (Some "u1"))]).1
    (Settle 0 (Rejected "ETIMEDOUT 142.250.1.95:443")) =
    (State (rateLimit ServerJs.apiLimiter ∅ (Some "u1") 0).2 ∅
       (delete 0 {[0 := (gemini_proxy, Suspended (Some "u1") 0)]}) 1,
     Finished 0 (Response 500 (ErrorBody "An error occurred on the proxy server."))).
Proof.
  split; [reflexivity|].
  apply (transport_failure_answer server_js env_full
           (run server_js env_full start
              [Arrive 0 gemini_proxy (generate (Some "u1"))]).1
           0 gemini_proxy (Suspended (Some "u1") 0)
           (Rejected "ETIMEDOUT 142.250.1.95:443")); reflexivity.
Defined.

(** C10: when the upstream answers a request in flight with a status in
    200..299 and a body that is not JSON, reading the body throws before
    the status is looked at: every endpoint answers the generic 500 and
    the ledger is not incremented, where the same status with a body that
    parses would have been relayed and counted. *)
Theorem unparsable_success_answer v env s id ep k st cause data :
  in_flight s !! id = Some (ep, k) ->
  ok st = true ->
  step v env s (Settle id (Unparsable st cause)) =
    (State (hits s) (usageTracker s) (delete id (in_flight s)) (next_id s),
     Finished id (Response 500 (ErrorBody "An error occurred on the proxy server."))) /\
  step v env s (Settle id (Parsed st data)) =
    (State (hits s)
       (<[property_key (held_userId k) := S (held_userUsage k)]> (usageTracker s))
       (delete id (in_flight s)) (next_id s),
     Finished id (Response 200 (Data data))).
Proof.
  intros Hk Hok. simpl. rewrite Hk, resume_same. simpl. rewrite Hok.
  split; reflexivity.
Qed.

Lemma unparsable_success_answer_witness :
  ok 200 = true /\
  step part_000 env_full
    (run part_000 env_full start
       [Arrive 0 search_proxy (search_for (Some "u1") "cats")]).1
    (Settle 0 (Unparsable 200 "Unexpected end of JSON input")) =
    (State (rateLimit Part000.apiLimiter ∅ (Some "u1") 0).2 ∅
       (delete 0 {[0 := (search_proxy, Suspended (Some "u1") 0)]}) 1,
     Finished 0 proxy_error).
Proof.
  split; [reflexivity|].
  apply (unparsable_success_answer part_000 env_full
           (run part_000 env_full start
              [Arrive 0 search_proxy (search_for (Some "u1") "cats")]).1
           0 search_proxy (Suspended (Some "u1") 0) 200
           "Unexpected end of JSON input" "{}"); reflexivity.
Defined.

(** ** Upstream credentials *)

(** The search endpoint checks its credentials before it builds the call:
    with either one absent or empty, a request that got as far as the
    handler with a query is answered 500 "Server configuration error." *)
Lemma search_credentials_checked env b userUsage :
  Part000.no_query (searchPayload b) = false ->
  truthy (SEARCH_API_KEY env) = false \/ truthy (CX_ID env) = false ->
  Part000.search_proxy env b userUsage = Done configuration_error.
Proof.
  intros Hq Hc. unfold Part000.search_proxy. rewrite Hq.
  destruct Hc as [-> | ->]; simpl; [reflexivity|].
  rewrite orb_true_r. reflexivity.
Qed.

(** C7 (the code at the failing input): with no variable set in the
    environment, the gemini endpoint of either source goes upstream with
    an absent key, while the search endpoint answers the configuration
    error without an upstream call. *)
Theorem gemini_key_not_checked :
  (step server_js env_empty start (Arrive 0 gemini_proxy (generate (Some "u1")))).2 =
    Fetching 0 (GenerateContent None (Some "{}")) /\
  (step part_000 env_empty start (Arrive 0 gemini_proxy (generate (Some "u1")))).2 =
    Fetching 0 (GenerateContent None (Some "{}")) /\
  (step part_000 env_empty start
     (Arrive 0 search_proxy (search_for (Some "u1") "cats"))).2 =
    Replied (Response 500 (ErrorBody "Server configuration error.")).
Proof. repeat split. Qed.

(** ** The ledger *)

(** C2 (the code at the failing input): two requests of one user overlap;
    both read the usage 0 before either reply, both replies are relayed
    as successes, and both handlers write 1. *)
Theorem overlapping_successes_counted_once :
  run server_js env_full start
    [Arrive 0 gemini_proxy (generate (Some "u1"));
     Arrive 5 gemini_proxy (generate (Some "u1"));
     Settle 0 (Parsed 200 "{'n':1}");
     Settle 1 (Parsed 200 "{'n':2}")] =
  (State {[Some "u1" := WindowEntry 0 2]} {["u1" := 1]} ∅ 2,
   [Fetching 0 (GenerateContent (Some "gemini-key") (Some "{}"));
    Fetching 1 (GenerateContent (Some "gemini-key") (Some "{}"));
    Finished 0 (Response 200 (Data "{'n':1}"));
    Finished 1 (Response 200 (Data "{'n':2}"))]).
Proof. vm_compute. reflexivity. Qed.

Lemma usage_insert_same (ut : gmap string nat) (u : string) (n : nat) :
  usage (<[u := n]> ut) (Some u) = n.
Proof. unfold usage. simpl. rewrite lookup_insert_eq. reflexivity. Qed.

Lemma usage_insert_other (ut : gmap string nat) (u u' : string) (n : nat) :
  u' <> u -> usage (<[u' := n]> ut) (Some u) = usage ut (Some u).
Proof.
  intros H. unfold usage. simpl. rewrite lookup_insert_ne by assumption.
  reflexivity.
Qed.

(** One request served on its own adds one to the count of its user when
    it ends as a relayed success, and changes no count otherwise. *)
Lemma serve_usage v env s x u :
  usage (usageTracker (serve v env s x).1) (Some u) =
    usage (usageTracker s) (Some u) +
    (if bool_decide (userId (request x) = Some u) &&
        relayed_success x (serve v env s x).2
     then 1 else 0).
Proof.
  destruct x as [now ep b r]. unfold serve, step. simpl.
  destruct (registered v ep);
    [|simpl; rewrite andb_false_r; lia].
  destruct (rateLimit _ _ _ _) as [[] hits'];
    [|simpl; rewrite andb_false_r; lia].
  destruct (after_limiter v ep env (usageTracker s) b) as [res|c k] eqn:Ha;
    [simpl; rewrite andb_false_r; lia|].
  apply after_limiter_await in Ha as (Ht & _ & ->).
  apply truthy_Some in Ht as (u' & Hu' & _).
  simpl. rewrite lookup_insert_eq, resume_same.
  unfold relayed_success. simpl.
  destruct r as [cause|st cause|st data]; simpl;
    [rewrite andb_false_r; lia..|].
  destruct (ok st); simpl; [|rewrite andb_false_r; lia].
  rewrite Hu'. simpl. rewrite andb_true_r.
  case_bool_decide as Hd.
  - injection Hd as ->. rewrite usage_insert_same. unfold usage. simpl. lia.
  - rewrite usage_insert_other by congruence. lia.
Qed.

Lemma serve_all_cons v env s x xs :
  serve_all v env s (x :: xs) =
    ((serve_all v env (serve v env s x).1 xs).1,
     (serve v env s x).2 :: (serve_all v env (serve v env s x).1 xs).2).
Proof.
  simpl. destruct (serve v env s x) as [s1 o]. simpl.
  destruct (serve_all v env s1 xs) as [s2 os]. reflexivity.
Qed.

(** Requests served one after the other: the count of a user moves by
    the number of their relayed successes. *)
Lemma serve_all_usage v env xs : forall s u,
  usage (usageTracker (serve_all v env s xs).1) (Some u) =
    usage (usageTracker s) (Some u) + successes u xs (serve_all v env s xs).2.
Proof.
  induction xs as [|x xs IH]; intros s u.
  - simpl. lia.
  - rewrite serve_all_cons. simpl. rewrite IH, serve_usage. lia.
Qed.

(** A request of a user whose trial is used up is turned away by the
    limiter or by the quota check. *)
Lemma serve_quota_used_up v env s x u :
  u <> "" ->
  FREE_TRIAL_LIMIT <= usage (usageTracker s) (Some u) ->
  userId (request x) = Some u ->
  registered v (on x) = true ->
  (serve v env s x).2 = Replied quota_exhausted \/
  (serve v env s x).2 = Replied (rate_limited (apiLimiter v)).
Proof.
  intros Hne Hq Hu Hr. destruct x as [now ep b r]. simpl in *.
  unfold serve, step. simpl. rewrite Hr.
  destruct (rateLimit _ _ _ _) as [[] hits']; [|right; reflexivity].
  rewrite after_limiter_quota; [left; reflexivity| |].
  - rewrite Hu. apply truthy_Some_ne, Hne.
  - rewrite Hu. exact Hq.
Qed.

(** C3 (as amended): with requests served one after the other, once the
    count of an identified user has reached the free-trial limit, every
    later request of that user is answered 429, with the free-trial
    message or, when the limiter rejects it first, with the rate-limit
    message; none goes upstream and the count stays where it is. *)
Theorem quota_used_up_stays v env u xs : forall s,
  u <> "" ->
  FREE_TRIAL_LIMIT <= usage (usageTracker s) (Some u) ->
  usage (usageTracker (serve_all v env s xs).1) (Some u) =
    usage (usageTracker s) (Some u) /\
  Forall2
    (fun x o =>
       userId (request x) = Some u -> registered v (on x) = true ->
       o = Replied quota_exhausted \/ o = Replied (rate_limited (apiLimiter v)))
    xs (serve_all v env s xs).2.
Proof.
  induction xs as [|x xs IH]; intros s Hne Hq.
  - split; [reflexivity|constructor].
  - rewrite serve_all_cons. simpl.
    assert (Hs : usage (usageTracker (serve v env s x).1) (Some u) =
                 usage (usageTracker s) (Some u)).
    { rewrite serve_usage. case_bool_decide as Hd; simpl; [|lia].
      destruct (registered v (on x)) eqn:Hr.
      - destruct (serve_quota_used_up v env s x u Hne Hq Hd Hr) as [-> | ->];
          simpl; lia.
      - destruct x as [now ep b r]. simpl in Hr. unfold serve, step.
        simpl. rewrite Hr. simpl. lia. }
    destruct (IH (serve v env s x).1 Hne) as [IH1 IH2]; [rewrite Hs; exact Hq|].
    split; [rewrite IH1; exact Hs|].
    constructor; [|exact IH2].
    intros Hu Hr. apply (serve_quota_used_up v env s x u); assumption.
Qed.

Lemma quota_used_up_stays_witness :
  "u1" <> "" /\
  FREE_TRIAL_LIMIT <=
    usage (usageTracker (serve_all server_js env_full start twenty_successes).1)
      (Some "u1") /\
  usage (usageTracker
           (serve_all server_js env_full
              (serve_all server_js env_full start twenty_successes).1
              [Exchange 180001 gemini_proxy (generate (Some "u1")) (Parsed 200 "{}");
               Exchange 240000 gemini_proxy (generate (Some "u1")) (Parsed 200 "{}")]).1)
    (Some "u1") =
  usage (usageTracker (serve_all server_js env_full start twenty_successes).1)
    (Some "u1") /\
  Forall2
    (fun x o =>
       userId (request x) = Some "u1" -> registered server_js (on x) = true ->
       o = Replied quota_exhausted \/
       o = Replied (rate_limited (apiLimiter server_js)))
    [Exchange 180001 gemini_proxy (generate (Some "u1")) (Parsed 200 "{}");
     Exchange 240000 gemini_proxy (generate (Some "u1")) (Parsed 200 "{}")]
    (serve_all server_js env_full
       (serve_all server_js env_full start twenty_successes).1
       [Exchange 180001 gemini_proxy (generate (Some "u1")) (Parsed 200 "{}");
        Exchange 240000 gemini_proxy (generate (Some "u1")) (Parsed 200 "{}")]).2.
Proof.
  split; [discriminate|]. split; [vm_compute; lia|].
  apply (quota_used_up_stays server_js env_full "u1"
           [Exchange 180001 gemini_proxy (generate (Some "u1")) (Parsed 200 "{}");
            Exchange 240000 gemini_proxy (generate (Some "u1")) (Parsed 200 "{}")]
           (serve_all server_js env_full start twenty_successes).1);
    [discriminate|vm_compute; lia].
Defined.

(** C3 (as stated) fails: after twenty successes, the last five of them
    in the current minute, the next request of the user is answered by
    the limiter with the rate-limit message, not by the quota check. *)
Lemma quota_used_up_rate_limited :
  usage (usageTracker (serve_all server_js env_full start twenty_successes).1)
    (Some "u1") = 20 /\
  (step server_js env_full
     (serve_all server_js env_full start twenty_successes).1
     (Arrive 180001 gemini_proxy (generate (Some "u1")))).2 =
    Replied (Response 429
      (ErrorBody "Too many requests, please try again after a minute.")) /\
  Replied (Response 429
      (ErrorBody "Too many requests, please try again after a minute.")) <>
    Replied quota_exhausted.
Proof.
  split; [vm_compute; reflexivity|]. split; [vm_compute; reflexivity|discriminate].
Qed.

(** ** The rate window *)

Lemma rateLimit_open_entry o store key now :
  rateLimit o store key now =
    let e := open_entry o store key now in
    if (max o <=? count e)%nat
    then (false, <[key := e]> store)
    else (true, <[key := WindowEntry (windowStart e) (S (count e))]> store).
Proof. reflexivity. Qed.

Lemma rateLimit_other o store key now key' :
  key <> key' -> (rateLimit o store key now).2 !! key' = store !! key'.
Proof.
  intros H. rewrite rateLimit_open_entry. simpl.
  destruct (max o <=? count _)%nat; simpl; apply lookup_insert_ne, H.
Qed.

Lemma rateLimit_full o store key now :
  (max o <= count (open_entry o store key now))%nat ->
  rateLimit o store key now = (false, <[key := open_entry o store key now]> store).
Proof.
  intros H. rewrite rateLimit_open_entry. simpl.
  apply Nat.leb_le in H. rewrite H. reflexivity.
Qed.

Lemma rateLimit_room o store key now :
  (count (open_entry o store key now) < max o)%nat ->
  rateLimit o store key now =
    (true, <[key := WindowEntry (windowStart (open_entry o store key now))
                      (S (count (open_entry o store key now)))]> store).
Proof.
  intros H. rewrite rateLimit_open_entry. simpl.
  apply Nat.leb_gt in H. rewrite H. reflexivity.
Qed.

Lemma run_snoc v env es : forall s e,
  run v env s (es ++ [e]) =
    ((step v env (run v env s es).1 e).1,
     (run v env s es).2 ++ [(step v env (run v env s es).1 e).2]).
Proof.
  induction es as [|e0 es IH]; intros s e.
  - simpl. destruct (step v env s e). reflexivity.
  - simpl. destruct (step v env s e0) as [s1 o]. rewrite IH.
    destruct (run v env s1 es) as [s2 os]. simpl.
    destruct (step v env s2 e). reflexivity.
Qed.

Lemma run_length v env es : forall s, length (run v env s es).2 = length es.
Proof.
  induction es as [|e es IH]; intros s; [reflexivity|].
  simpl. destruct (step v env s e) as [s1 o]. specialize (IH s1).
  destruct (run v env s1 es) as [s2 os]. simpl in *. congruence.
Qed.

Lemma transcript_snoc es os e o :
  length es = length os ->
  transcript (es ++ [e]) (os ++ [o]) = transcript es os ++ [(e, o)].
Proof.
  intros H. unfold transcript. rewrite zip_with_app by assumption. reflexivity.
Qed.

Lemma dispatched_snoc key p t eo :
  dispatched key p (t ++ [eo]) =
    dispatched key p t + (if dispatched_at key p eo then 1 else 0).
Proof.
  unfold dispatched. rewrite List.filter_app, length_app. simpl.
  destruct (dispatched_at key p eo); reflexivity.
Qed.

Lemma dispatched_at_mono key (p q : Z -> bool) eo :
  (forall now, p now = true -> q now = true) ->
  dispatched_at key p eo = true -> dispatched_at key q eo = true.
Proof.
  intros H. destruct eo as [[now ep b|id r] []]; simpl; try discriminate.
  intros [Hk Hp]%andb_prop. rewrite Hk, (H _ Hp). reflexivity.
Qed.

Lemma dispatched_mono key (p q : Z -> bool) t :
  (forall now, p now = true -> q now = true) ->
  dispatched key p t <= dispatched key q t.
Proof.
  intros H. unfold dispatched. induction t as [|eo t IH]; simpl; [lia|].
  destruct (dispatched_at key p eo) eqn:Hp.
  - rewrite (dispatched_at_mono key p q eo H Hp). simpl. lia.
  - destruct (dispatched_at key q eo); simpl; lia.
Qed.

Lemma step_arrive_hits v env s now ep b :
  registered v ep = true ->
  hits (step v env s (Arrive now ep b)).1 =
    (rateLimit (apiLimiter v) (hits s) (userId b) now).2.
Proof.
  intros Hr. simpl. rewrite Hr.
  destruct (rateLimit _ _ _ _) as [[] hits']; simpl; [|reflexivity].
  destruct (after_limiter _ _ _ _ _); reflexivity.
Qed.

(** Only a request that the limiter let through goes upstream. *)
Lemma step_fetching_passed v env s now ep b id c :
  (step v env s (Arrive now ep b)).2 = Fetching id c ->
  registered v ep = true /\
  (rateLimit (apiLimiter v) (hits s) (userId b) now).1 = true.
Proof.
  simpl. destruct (registered v ep); [|discriminate].
  destruct (rateLimit _ _ _ _) as [[] hits']; simpl; [auto|discriminate].
Qed.

Lemma dispatched_at_arrive key p v env s now ep b :
  dispatched_at key p (Arrive now ep b, (step v env s (Arrive now ep b)).2) = true ->
  userId b = key /\ p now = true /\
  (rateLimit (apiLimiter v) (hits s) (userId b) now).1 = true.
Proof.
  destruct (step v env s (Arrive now ep b)).2 eqn:Ho; simpl; try discriminate.
  apply step_fetching_passed in Ho as [_ Hp].
  intros [Hk Hn]%andb_prop. apply bool_decide_eq_true in Hk. auto.
Qed.

Lemma open_entry_accounted v s t key now :
  window_accounted v s t ->
  count (open_entry (apiLimiter v) (hits s) key now) <= max (apiLimiter v) /\
  dispatched key (Z.leb (windowStart (open_entry (apiLimiter v) (hits s) key now))) t
    <= count (open_entry (apiLimiter v) (hits s) key now) /\
  dispatched key
    (Z.leb (windowStart (open_entry (apiLimiter v) (hits s) key now)
            + windowMs (apiLimiter v))) t = 0 /\
  (now < windowStart (open_entry (apiLimiter v) (hits s) key now)
         + windowMs (apiLimiter v))%Z.
Proof.
  intros Hinv. specialize (Hinv key). unfold open_entry.
  pose proof (window_positive v) as HW.
  destruct (hits s !! key) as [e|].
  - destruct Hinv as (Hc & Hd & Hz).
    destruct (Z.leb_spec (windowMs (apiLimiter v)) (now - windowStart e)) as [Hl|Hl];
      simpl.
    + assert (H1 : dispatched key (Z.leb now) t = 0).
      { apply Nat.le_0_r. rewrite <- Hz. apply dispatched_mono.
        intros n Hn. apply Z.leb_le. apply Z.leb_le in Hn. lia. }
      assert (H2 : dispatched key (Z.leb (now + windowMs (apiLimiter v))) t = 0).
      { apply Nat.le_0_r. rewrite <- Hz. apply dispatched_mono.
        intros n Hn. apply Z.leb_le. apply Z.leb_le in Hn. lia. }
      rewrite H1, H2. repeat split; lia.
    + repeat split; try assumption; lia.
  - simpl.
    assert (H1 : dispatched key (Z.leb now) t = 0).
    { apply Nat.le_0_r. rewrite <- Hinv. apply dispatched_mono. reflexivity. }
    assert (H2 : dispatched key (Z.leb (now + windowMs (apiLimiter v))) t = 0).
    { apply Nat.le_0_r. rewrite <- Hinv. apply dispatched_mono. reflexivity. }
    rewrite H1, H2. repeat split; lia.
Qed.

Lemma window_accounted_step v env s t e :
  window_accounted v s t ->
  window_accounted v (step v env s e).1 (t ++ [(e, (step v env s e).2)]).
Proof.
  intros Hinv key.
  destruct e as [now ep b|id r].
  - destruct (registered v ep) eqn:Hr.
    + rewrite step_arrive_hits by assumption.
      destruct (decide (userId b = key)) as [Hk|Hk].
      * subst key.
        destruct (open_entry_accounted v s t (userId b) now Hinv)
          as (Hc & Hd & Hz & Hn).
        destruct (Nat.leb_spec (max (apiLimiter v))
                    (count (open_entry (apiLimiter v) (hits s) (userId b) now)))
          as [Hf|Hf].
        -- assert (H0 : forall p,
             dispatched_at (userId b) p
               (Arrive now ep b, (step v env s (Arrive now ep b)).2) = false).
           { intros p. destruct (dispatched_at _ _ _) eqn:Hp; [|reflexivity].
             apply dispatched_at_arrive in Hp as (_ & _ & Hp).
             rewrite rateLimit_full in Hp by assumption. discriminate. }
           rewrite rateLimit_full by assumption. cbn [fst snd].
           rewrite lookup_insert_eq, !dispatched_snoc, !H0.
           repeat split; lia.
        -- assert (H0 :
             dispatched_at (userId b)
               (Z.leb (windowStart (open_entry (apiLimiter v) (hits s) (userId b) now)
                       + windowMs (apiLimiter v)))
               (Arrive now ep b, (step v env s (Arrive now ep b)).2) = false).
           { destruct (dispatched_at _ _ _) eqn:Hp; [|reflexivity].
             apply dispatched_at_arrive in Hp as (_ & Hp & _).
             apply Z.leb_le in Hp. lia. }
           rewrite rateLimit_room by assumption. cbn [fst snd].
           rewrite lookup_insert_eq. cbn [windowStart count].
           rewrite !dispatched_snoc, H0. clear H0.
           destruct (dispatched_at _ _ _); repeat split; lia.
      * rewrite rateLimit_other by assumption. specialize (Hinv key).
        assert (H0 : forall p,
          dispatched_at key p
            (Arrive now ep b, (step v env s (Arrive now ep b)).2) = false).
        { intros p. destruct (dispatched_at _ _ _) eqn:Hp; [|reflexivity].
          apply dispatched_at_arrive in Hp as (Hp & _ & _). contradiction. }
        destruct (hits s !! key) as [e|].
        -- rewrite !dispatched_snoc, !H0. destruct Hinv as (? & ? & ?).
           repeat split; lia.
        -- rewrite dispatched_snoc, H0. lia.
    + specialize (Hinv key). simpl. rewrite Hr. simpl.
      destruct (hits s !! key) as [e|].
      * rewrite !dispatched_snoc. simpl. destruct Hinv as (? & ? & ?).
        repeat split; lia.
      * rewrite dispatched_snoc. simpl. lia.
  - specialize (Hinv key).
    assert (Hh : hits (step v env s (Settle id r)).1 = hits s).
    { simpl. destruct (in_flight s !! id) as [[ep k]|]; [|reflexivity].
      destruct (resume v ep k r (usageTracker s)). reflexivity. }
    rewrite Hh.
    destruct (hits s !! key) as [e|].
    + rewrite !dispatched_snoc. simpl. destruct Hinv as (? & ? & ?).
      repeat split; lia.
    + rewrite dispatched_snoc. simpl. lia.
Qed.

Lemma window_accounted_start v : window_accounted v start [].
Proof. intros key. simpl. rewrite lookup_empty. reflexivity. Qed.

Lemma window_accounted_run v env es :
  window_accounted v (run v env start es).1
    (transcript es (run v env start es).2).
Proof.
  induction es as [|e es IH] using rev_ind.
  - apply window_accounted_start.
  - rewrite run_snoc. cbn [fst snd].
    rewrite transcript_snoc by (symmetry; apply run_length).
    apply window_accounted_step, IH.
Qed.

(** C4: at any moment of any run of either server, for every key and its
    current window, the requests under that key that arrived inside the
    window and went upstream number at most the configured maximum; and
    once the window is full, a further request under that key that
    arrives before the window ends is answered 429 with the rate-limit
    message and does not go upstream. *)
Theorem window_bound v env es key e :
  hits (run v env start es).1 !! key = Some e ->
  dispatched key (within (windowStart e) (windowMs (apiLimiter v)))
    (transcript es (run v env start es).2) <= max (apiLimiter v) /\
  (forall now ep b,
     registered v ep = true ->
     userId b = key ->
     max (apiLimiter v) <= count e ->
     (now - windowStart e < windowMs (apiLimiter v))%Z ->
     step v env (run v env start es).1 (Arrive now ep b) =
       (State (<[key := e]> (hits (run v env start es).1))
          (usageTracker (run v env start es).1)
          (in_flight (run v env start es).1)
          (next_id (run v env start es).1),
        Replied (Response 429 (ErrorBody (message (apiLimiter v)))))).
Proof.
  intros He. pose proof (window_accounted_run v env es key) as Hinv.
  rewrite He in Hinv. destruct Hinv as (Hc & Hd & _).
  split.
  - etransitivity; [|exact Hc]. etransitivity; [|exact Hd].
    apply dispatched_mono. intros now [H _]%andb_prop. exact H.
  - intros now ep b Hr <- Hf Hn. simpl. rewrite Hr.
    assert (Ho : open_entry (apiLimiter v) (hits (run v env start es).1)
                   (userId b) now = e).
    { unfold open_entry. rewrite He.
      destruct (Z.leb_spec (windowMs (apiLimiter v)) (now - windowStart e));
        [lia|reflexivity]. }
    rewrite rateLimit_full by (rewrite Ho; exact Hf).
    rewrite Ho. reflexivity.
Qed.

Lemma window_bound_witness :
  hits (run server_js env_full start (take 5 six_in_ten_seconds)).1 !! Some "u2" =
    Some (WindowEntry 0 5) /\
  dispatched (Some "u2") (within 0 60000)
    (transcript (take 5 six_in_ten_seconds)
       (run server_js env_full start (take 5 six_in_ten_seconds)).2) <= 5 /\
  (step server_js env_full
     (run server_js env_full start (take 5 six_in_ten_seconds)).1
     (Arrive 10000 gemini_proxy (generate (Some "u2")))).2 =
    Replied (Response 429
      (ErrorBody "Too many requests, please try again after a minute.")).
Proof.
  assert (He : hits (run server_js env_full start (take 5 six_in_ten_seconds)).1
                 !! Some "u2" = Some (WindowEntry 0 5))
    by (vm_compute; reflexivity).
  destruct (window_bound server_js env_full (take 5 six_in_ten_seconds)
              (Some "u2") (WindowEntry 0 5) He) as [H1 H2].
  split; [exact He|]. split; [exact H1|].
  rewrite (H2 10000%Z gemini_proxy (generate (Some "u2")) eq_refl eq_refl);
    [reflexivity|simpl; lia|simpl; lia].
Defined.

(** ** The scenarios of the specification, run *)

(** Scenario A: twenty-one successful requests more than a minute apart;
    the first twenty are relayed, the twenty-first meets the quota. *)
Example scenario_A :
  (serve_all server_js env_full start twenty_one_spaced).2 =
    List.map (fun i => Finished i (Response 200 (Data "{}"))) (seq 0 20)
    ++ [Replied quota_exhausted] /\
  usage (usageTracker (serve_all server_js env_full start twenty_one_spaced).1)
    (Some "u1") = 20.
Proof. split; vm_compute; reflexivity. Qed.

(** Scenario B: six requests inside ten seconds at five a minute; five go
    upstream, the sixth is answered by the limiter. *)
Example scenario_B :
  (run server_js env_full start six_in_ten_seconds).2 =
    List.map (fun i => Fetching i (GenerateContent (Some "gemini-key") (Some "{}")))
      (seq 0 5)
    ++ [Replied (rate_limited ServerJs.apiLimiter)].
Proof. vm_compute. reflexivity. Qed.

(** Scenario C: a search without a query. *)
Example scenario_C :
  run part_000 env_full start
    [Arrive 0 search_proxy (search_without_query (Some "u3"))] =
    (State {[Some "u3" := WindowEntry 0 1]} ∅ ∅ 0, [Replied missing_query]).
Proof. vm_compute. reflexivity. Qed.

(** Scenario D: the upstream call fails; the ledger is unchanged and the
    slot of the window stays used. *)
Example scenario_D :
  run part_000 env_full start
    [Arrive 0 gemini_proxy (generate (Some "u4"));
     Settle 0 (Rejected "socket hang up")] =
    (State {[Some "u4" := WindowEntry 0 1]} ∅ ∅ 1,
     [Fetching 0 (GenerateContent (Some "gemini-key") (Some "{}"));
      Finished 0 proxy_error]).
Proof. vm_compute. reflexivity. Qed.

(** A reply that comes late writes the usage its handler read at the
    start, even over a larger count. *)
Example late_reply_lowers_count :
  List.map (fun es => usage (usageTracker (run server_js env_full start es).1) (Some "u1"))
    [[Arrive 0 gemini_proxy (generate (Some "u1"));
      Arrive 1 gemini_proxy (generate (Some "u1"));
      Settle 1 (Parsed 200 "{}");
      Arrive 2 gemini_proxy (generate (Some "u1"));
      Settle 2 (Parsed 200 "{}")];
     [Arrive 0 gemini_proxy (generate (Some "u1"));
      Arrive 1 gemini_proxy (generate (Some "u1"));
      Settle 1 (Parsed 200 "{}");
      Arrive 2 gemini_proxy (generate (Some "u1"));
      Settle 2 (Parsed 200 "{}");
      Settle 0 (Parsed 200 "{}")]] = [2; 1].
Proof. vm_compute. reflexivity. Qed.

(** ** Further properties of the handlers *)

(** What an arrival does to the ledger and to the suspended handlers:
    the ledger is not touched, and at most the request itself is added,
    holding the usage that the handler has read. *)
Lemma step_arrive_state v env s now ep b :
  usageTracker (step v env s (Arrive now ep b)).1 = usageTracker s /\
  (in_flight (step v env s (Arrive now ep b)).1 = in_flight s \/
   registered v ep = true /\
   truthy (userId b) = true /\
   usage (usageTracker s) (userId b) < FREE_TRIAL_LIMIT /\
   in_flight (step v env s (Arrive now ep b)).1 =
     <[next_id s := (ep, Suspended (userId b) (usage (usageTracker s) (userId b)))]>
       (in_flight s)).
Proof.
  simpl. destruct (registered v ep) eqn:Hr; [|auto].
  destruct (rateLimit _ _ _ _) as [[] hits']; [|auto].
  destruct (after_limiter v ep env (usageTracker s) b) as [r|c k] eqn:Ha; [auto|].
  apply after_limiter_await in Ha as (Ht & Hq & ->). simpl. auto 10.
Qed.

(** What a reply does: the handler leaves the suspended ones, and the
    ledger is kept or gets the held usage plus one under the held identity. *)
Lemma step_settle_state v env s id r ep k :
  in_flight s !! id = Some (ep, k) ->
  in_flight (step v env s (Settle id r)).1 = delete id (in_flight s) /\
  (usageTracker (step v env s (Settle id r)).1 = usageTracker s \/
   usageTracker (step v env s (Settle id r)).1 =
     <[property_key (held_userId k) := S (held_userUsage k)]> (usageTracker s)).
Proof.
  intros Hk. simpl. rewrite Hk, resume_same.
  destruct r as [cause|st cause|st data]; simpl; [auto..|].
  destruct (ok st); simpl; auto.
Qed.

Lemma step_settle_stale v env s id r :
  in_flight s !! id = None -> step v env s (Settle id r) = (s, Stale).
Proof. intros Hk. simpl. rewrite Hk. reflexivity. Qed.

Lemma ledger_bounded_step v env s e :
  ledger_bounded s -> ledger_bounded (step v env s e).1.
Proof.
  intros [Hu Hf]. destruct e as [now ep b|id r].
  - destruct (step_arrive_state v env s now ep b) as [Hut Hin].
    unfold ledger_bounded. rewrite Hut. split; [exact Hu|].
    destruct Hin as [-> | (_ & _ & Hq & ->)]; [exact Hf|].
    intros id ep' k Hk.
    destruct (decide (id = next_id s)) as [->|Hne].
    + rewrite lookup_insert_eq in Hk. injection Hk as _ <-. exact Hq.
    + rewrite lookup_insert_ne in Hk by congruence. eapply Hf, Hk.
  - destruct (in_flight s !! id) as [[ep k]|] eqn:Hk.
    + destruct (step_settle_state v env s id r ep k Hk) as [Hin Hut].
      unfold ledger_bounded. rewrite Hin. split.
      * destruct Hut as [-> | ->]; [exact Hu|].
        intros u n Hn.
        destruct (decide (u = property_key (held_userId k))) as [->|Hne].
        -- rewrite lookup_insert_eq in Hn. injection Hn as <-.
           apply (Hf id ep k Hk).
        -- rewrite lookup_insert_ne in Hn by congruence. eapply Hu, Hn.
      * intros id' ep' k' Hk'. apply lookup_delete_Some in Hk' as [_ Hk'].
        eapply Hf, Hk'.
    + rewrite step_settle_stale by assumption. split; assumption.
Qed.

Lemma ledger_bounded_start : ledger_bounded start.
Proof.
  split.
  - intros u n H. simpl in H. rewrite lookup_empty in H. discriminate.
  - intros id ep k H. simpl in H. rewrite lookup_empty in H. discriminate.
Qed.

Lemma ledger_bounded_run v env es : forall s,
  ledger_bounded s -> ledger_bounded (run v env s es).1.
Proof.
  induction es as [|e es IH]; intros s Hs; [exact Hs|].
  simpl. pose proof (ledger_bounded_step v env s e Hs) as H1.
  destruct (step v env s e) as [s1 o]. specialize (IH s1 H1).
  destruct (run v env s1 es) as [s2 os]. exact IH.
Qed.

(** X2: in every run of either server, however arrivals and upstream
    replies interleave, no count of the ledger ever exceeds the free-trial
    limit. *)
Theorem ledger_never_above_limit v env es u n :
  usageTracker (run v env start es).1 !! u = Some n ->
  n <= FREE_TRIAL_LIMIT.
Proof.
  intros Hn.
  destruct (ledger_bounded_run v env es start ledger_bounded_start) as [Hu _].
  eapply Hu, Hn.
Qed.

Lemma ledger_never_above_limit_witness :
  usageTracker
    (run server_js env_full start
       [Arrive 0 gemini_proxy (generate (Some "u1"));
        Arrive 5 gemini_proxy (generate (Some "u1"));
        Settle 0 (Parsed 200 "{}");
        Settle 1 (Parsed 201 "{}")]).1 !! "u1" = Some 1 /\
  1 <= FREE_TRIAL_LIMIT.
Proof.
  assert (He : usageTracker
    (run server_js env_full start
       [Arrive 0 gemini_proxy (generate (Some "u1"));
        Arrive 5 gemini_proxy (generate (Some "u1"));
        Settle 0 (Parsed 200 "{}");
        Settle 1 (Parsed 201 "{}")]).1 !! "u1" = Some 1)
    by (vm_compute; reflexivity).
  split; [exact He|].
  exact (ledger_never_above_limit server_js env_full _ "u1" 1 He).
Defined.







Lemma run_cons v env s e es :
  run v env s (e :: es) =
    ((run v env (step v env s e).1 es).1,
     (step v env s e).2 :: (run v env (step v env s e).1 es).2).
Proof.
  simpl. destruct (step v env s e) as [s1 o]. simpl.
  destruct (run v env s1 es) as [s2 os]. reflexivity.
Qed.

Lemma step_settle_hits v env s id r :
  hits (step v env s (Settle id r)).1 = hits s.
Proof.
  simpl. destruct (in_flight s !! id) as [[ep k]|]; [|reflexivity].
  destruct (resume v ep k r (usageTracker s)). reflexivity.
Qed.

(** X4: the store of the rate limiter after a run is the one that the
    arrivals on registered routes produce by themselves, in order: each
    takes its slot under its userId whether it is then rejected, sent
    upstream or answered with an error, and neither the payload, the
    environment, the ledger nor any upstream reply has a part in it. *)
Theorem limiter_sees_arrivals_only v env es : forall s,
  hits (run v env s es).1 = limiter_only v (hits s) es.
Proof.
  induction es as [|e es IH]; intros s; [reflexivity|].
  rewrite run_cons. cbn [fst]. rewrite IH.
  destruct e as [now ep b|id r]; cbn [limiter_only].
  - destruct (registered v ep) eqn:Hr.
    + rewrite step_arrive_hits by assumption. reflexivity.
    + simpl. rewrite Hr. reflexivity.
  - rewrite step_settle_hits. reflexivity.
Qed.

Lemma counted_within_step v env s e u n :
  counted_within u n s ->
  counted_within u ((if success_of s e u then 1 else 0) + n) (step v env s e).1.
Proof.
  intros [Hu Hf]. destruct e as [now ep b|id r].
  - destruct (step_arrive_state v env s now ep b) as [Hut Hin].
    unfold counted_within. rewrite Hut. cbn [success_of]. split; [exact Hu|].
    destruct Hin as [-> | (_ & Ht & _ & ->)]; [exact Hf|].
    intros id ep' k Hk.
    destruct (decide (id = next_id s)) as [->|Hne].
    + rewrite lookup_insert_eq in Hk. injection Hk as _ <-. simpl.
      apply truthy_Some in Ht as (u' & Hb & _). split; [eauto|].
      intros ->. exact Hu.
    + rewrite lookup_insert_ne in Hk by congruence. apply (Hf id ep' k Hk).
  - destruct (in_flight s !! id) as [[ep k]|] eqn:Hk.
    2:{ rewrite step_settle_stale by assumption.
        assert (success_of s (Settle id r) u = false) as ->.
        { simpl. rewrite Hk. destruct r; reflexivity. }
        split; assumption. }
    destruct (Hf id ep k Hk) as [(u' & Hu') Hh].
    assert (Hrest : forall m, n <= m ->
      forall id' ep' k', delete id (in_flight s) !! id' = Some (ep', k') ->
        (exists u'', held_userId k' = Some u'') /\
        (held_userId k' = Some u -> held_userUsage k' <= m)).
    { intros m Hm id' ep' k' Hk'. apply lookup_delete_Some in Hk' as [_ Hk'].
      destruct (Hf id' ep' k' Hk') as [? Hh']. split; [assumption|].
      intros H'. specialize (Hh' H'). lia. }
    unfold counted_within, step. rewrite Hk, resume_same.
    cbn [success_of]. rewrite Hk.
    destruct r as [cause|st cause|st data]; simpl;
      [split; [exact Hu|apply Hrest; lia]..|].
    destruct (ok st); simpl.
    2:{ rewrite andb_false_r. split; [exact Hu|apply Hrest; lia]. }
    rewrite andb_true_r, Hu'. simpl.
    case_bool_decide as Hd.
    + injection Hd as ->. rewrite usage_insert_same.
      split; [specialize (Hh Hu'); lia|apply Hrest; lia].
    + rewrite usage_insert_other by congruence.
      split; [exact Hu|apply Hrest; lia].
Qed.

Lemma counted_within_run v env es u : forall s n,
  counted_within u n s ->
  usage (usageTracker (run v env s es).1) (Some u) <=
    n + relayed_successes v env s es u.
Proof.
  induction es as [|e es IH]; intros s n Hs.
  - simpl. destruct Hs as [Hu _]. lia.
  - rewrite run_cons. cbn [fst relayed_successes].
    pose proof (IH _ _ (counted_within_step v env s e u n Hs)) as H. lia.
Qed.

(** X9: in every run of either server, however arrivals and upstream
    replies interleave, the count that the ledger holds for a user is at
    most the number of that user's relayed successes: overlapping
    requests can lose increments, never add any. *)
Theorem ledger_never_over_counts v env es u :
  usage (usageTracker (run v env start es).1) (Some u) <=
    relayed_successes v env start es u.
Proof.
  apply (counted_within_run v env es u start 0).
  split; [reflexivity|].
  intros id ep k H. simpl in H. rewrite lookup_empty in H. discriminate.
Qed.

(** ** The ledger with what it inherits *)

Lemma inherited_not_empty (u : string) : inherited u = true -> u <> "".
Proof. intros H ->. discriminate. Qed.

Lemma own_not_proto (u : string) :
  inherited u = false -> String.eqb u "__proto__" = false.
Proof.
  intros H. destruct (String.eqb_spec u "__proto__") as [->|]; [|reflexivity].
  discriminate.
Qed.

Lemma proto_read_insert_same (ut : gmap string js_val) (u : string) (w : js_val) :
  Proto.read (<[u := w]> ut) (Some u) = w.
Proof. unfold Proto.read. simpl. rewrite lookup_insert_eq. reflexivity. Qed.

Lemma proto_read_assign_other (ut : gmap string js_val) (u u' : string) (w : js_val) :
  u' <> u ->
  Proto.read (Proto.assign ut (Some u') w) (Some u) = Proto.read ut (Some u).
Proof.
  intros H. unfold Proto.assign. simpl.
  destruct (String.eqb u' "__proto__"); [reflexivity|].
  unfold Proto.read. simpl. rewrite lookup_insert_ne by assumption. reflexivity.
Qed.

Lemma proto_read_assign_own (ut : gmap string js_val) (u : string) (w : js_val) :
  inherited u = false ->
  Proto.read (Proto.assign ut (Some u) w) (Some u) = w.
Proof.
  intros H. unfold Proto.assign. simpl. rewrite own_not_proto by assumption.
  apply proto_read_insert_same.
Qed.

Lemma proto_after_limiter_no_identity v ep env ut b :
  truthy (userId b) = false ->
  Proto.after_limiter v ep env ut b = Proto.Done missing_user_id.
Proof.
  intros H. destruct v; simpl.
  - unfold Proto.server_js_handler. rewrite H. reflexivity.
  - unfold Proto.usageAndAuthMiddleware. rewrite H. reflexivity.
Qed.

Lemma proto_after_limiter_at_limit v ep env ut b :
  truthy (userId b) = true ->
  Proto.at_limit (Proto.read ut (userId b)) = true ->
  Proto.after_limiter v ep env ut b = Proto.Done quota_exhausted.
Proof.
  intros H Hq. destruct v; simpl.
  - unfold Proto.server_js_handler. rewrite H, Hq. reflexivity.
  - unfold Proto.usageAndAuthMiddleware. rewrite H, Hq. reflexivity.
Qed.

Lemma proto_after_limiter_gemini v env ut b :
  truthy (userId b) = true ->
  Proto.at_limit (Proto.read ut (userId b)) = false ->
  Proto.after_limiter v gemini_proxy env ut b =
    Proto.Await (GenerateContent (GEMINI_API_KEY env) (geminiPayload b))
      (Proto.Kept (userId b) (Proto.read ut (userId b))).
Proof.
  intros H Hq. destruct v; simpl.
  - unfold Proto.server_js_handler. rewrite H, Hq. reflexivity.
  - unfold Proto.usageAndAuthMiddleware. rewrite H, Hq. reflexivity.
Qed.

Lemma proto_after_limiter_search env ut b c k :
  Proto.after_limiter part_000 search_proxy env ut b = Proto.Await c k ->
  truthy (userId b) = true /\
  Proto.at_limit (Proto.read ut (userId b)) = false /\
  Proto.search_handler env b (Proto.read ut (userId b)) = Proto.Await c k.
Proof.
  cbn [Proto.after_limiter]. unfold Proto.usageAndAuthMiddleware.
  destruct (truthy (userId b)); cbn [negb]; [|discriminate].
  destruct (Proto.at_limit _); [discriminate|]. auto.
Qed.

Lemma proto_search_handler_await env b userUsage c k :
  Proto.search_handler env b userUsage = Proto.Await c k ->
  truthy (SEARCH_API_KEY env) = true /\
  truthy (CX_ID env) = true /\
  k = Proto.Kept (userId b) userUsage /\
  exists p q start,
    searchPayload b = Some p /\ query p = Some q /\ q <> "" /\
    c = CustomSearch (SEARCH_API_KEY env) (CX_ID env) q start.
Proof.
  unfold Proto.search_handler, Part000.no_query.
  destruct (searchPayload b) as [p|]; simpl; [|discriminate].
  destruct (truthy (query p)) eqn:Hq; simpl; [|discriminate].
  destruct (truthy (SEARCH_API_KEY env)); simpl; [|discriminate].
  destruct (truthy (CX_ID env)); simpl; [|discriminate].
  apply truthy_Some in Hq as (q & Hq & Hne). rewrite Hq. simpl.
  intros [= <- <-]. repeat split. exists p, q, (or_one (startIndex p)). auto.
Qed.

(** Whatever a route calls, what it keeps across the await is the
    identity of the request, which is present, and the value it read,
    which the quota test has let pass. *)
Lemma proto_after_limiter_await v ep env ut b c k :
  Proto.after_limiter v ep env ut b = Proto.Await c k ->
  truthy (userId b) = true /\
  Proto.at_limit (Proto.read ut (userId b)) = false /\
  k = Proto.Kept (userId b) (Proto.read ut (userId b)).
Proof.
  destruct (truthy (userId b)) eqn:H.
  2:{ rewrite proto_after_limiter_no_identity by assumption. discriminate. }
  destruct (Proto.at_limit (Proto.read ut (userId b))) eqn:Hq.
  { rewrite proto_after_limiter_at_limit by assumption. discriminate. }
  destruct ep.
  - rewrite proto_after_limiter_gemini by assumption. intros [= <- <-]. auto.
  - destruct v.
    + simpl. unfold Proto.server_js_handler. rewrite H, Hq. simpl.
      intros [= <- <-]. auto.
    + intros Ha. apply proto_after_limiter_search in Ha as (_ & _ & Ha).
      apply proto_search_handler_await in Ha as (_ & _ & -> & _). auto.
Qed.

Lemma proto_step_fetching_iff v env s now ep b id c :
  (Proto.step v env s (Arrive now ep b)).2 = Fetching id c <->
  registered v ep = true /\
  (rateLimit (apiLimiter v) (Proto.hits s) (userId b) now).1 = true /\
  id = Proto.next_id s /\
  exists k, Proto.after_limiter v ep env (Proto.usageTracker s) b = Proto.Await c k.
Proof.
  simpl. destruct (registered v ep).
  2:{ split; [discriminate|]. intros (H & _). discriminate. }
  destruct (rateLimit _ _ _ _) as [[] hits']; simpl.
  2:{ split; [discriminate|]. intros (_ & H & _). discriminate. }
  destruct (Proto.after_limiter v ep env (Proto.usageTracker s) b) as [r|c' k'];
    simpl.
  - split; [discriminate|]. intros (_ & _ & _ & k & H). discriminate.
  - split.
    + intros [= <- <-]. eauto 10.
    + intros (_ & _ & -> & k & [= -> _]). reflexivity.
Qed.

(** X5: the gemini endpoint of either source calls the upstream exactly
    when the limiter lets the request through, its userId is not empty
    and the value read from the ledger for it is not a count that has
    reached the free-trial limit (a value that is no number never has);
    the call then carries the key of the environment and the
    geminiPayload of the request as they are, present or not. *)
Theorem gemini_dispatch_object v env s now b :
  ((exists id c,
      (Proto.step v env s (Arrive now gemini_proxy b)).2 = Fetching id c) <->
   (rateLimit (apiLimiter v) (Proto.hits s) (userId b) now).1 = true /\
   truthy (userId b) = true /\
   Proto.at_limit (Proto.read (Proto.usageTracker s) (userId b)) = false) /\
  (forall id c,
     (Proto.step v env s (Arrive now gemini_proxy b)).2 = Fetching id c ->
     id = Proto.next_id s /\
     c = GenerateContent (GEMINI_API_KEY env) (geminiPayload b)).
Proof.
  split; [split|].
  - intros (id & c & H).
    apply proto_step_fetching_iff in H as (_ & Hp & _ & k & Ha).
    apply proto_after_limiter_await in Ha as (Ht & Hq & _). auto.
  - intros (Hp & Ht & Hq). eexists _, _. apply proto_step_fetching_iff.
    split; [destruct v; reflexivity|]. split; [exact Hp|].
    split; [reflexivity|]. eexists. apply proto_after_limiter_gemini; assumption.
  - intros id c H.
    apply proto_step_fetching_iff in H as (_ & _ & -> & k & Ha).
    split; [reflexivity|].
    pose proof Ha as Hb.
    apply proto_after_limiter_await in Hb as (Ht & Hq & _).
    rewrite proto_after_limiter_gemini in Ha by assumption. congruence.
Qed.



Lemma proto_serve_all_cons v env s x xs :
  Proto.serve_all v env s (x :: xs) =
    ((Proto.serve_all v env (Proto.serve v env s x).1 xs).1,
     (Proto.serve v env s x).2
       :: (Proto.serve_all v env (Proto.serve v env s x).1 xs).2).
Proof.
  simpl. destruct (Proto.serve v env s x) as [s1 o]. simpl.
  destruct (Proto.serve_all v env s1 xs) as [s2 os]. reflexivity.
Qed.

Lemma proto_run_cons v env s e es :
  Proto.run v env s (e :: es) =
    ((Proto.run v env (Proto.step v env s e).1 es).1,
     (Proto.step v env s e).2 :: (Proto.run v env (Proto.step v env s e).1 es).2).
Proof.
  simpl. destruct (Proto.step v env s e) as [s1 o]. simpl.
  destruct (Proto.run v env s1 es) as [s2 os]. reflexivity.
Qed.

(** One request served on its own, seen from an identity that names no
    inherited member and whose value in the ledger is a count: the count
    goes up by one when the request is of that identity and ends as a
    relayed success, which needs a count below the limit; otherwise it
    stays. *)
Lemma proto_serve_usage v env s x u n :
  inherited u = false ->
  Proto.read (Proto.usageTracker s) (Some u) = Number n ->
  Proto.read (Proto.usageTracker (Proto.serve v env s x).1) (Some u) =
    Number (n + (if bool_decide (userId (request x) = Some u) &&
                    relayed_success x (Proto.serve v env s x).2
                 then 1 else 0)) /\
  (bool_decide (userId (request x) = Some u) &&
     relayed_success x (Proto.serve v env s x).2 = true ->
   n < FREE_TRIAL_LIMIT).
Proof.
  intros Hown Hn. destruct x as [now ep b r]. unfold Proto.serve, Proto.step.
  simpl.
  assert (Hkeep : forall o : output,
    (forall id res, o <> Finished id res) ->
    Proto.read (Proto.usageTracker s) (Some u) =
      Number (n + (if bool_decide (userId b = Some u) &&
                      relayed_success (Exchange now ep b r) o
                   then 1 else 0)) /\
    (bool_decide (userId b = Some u) &&
       relayed_success (Exchange now ep b r) o = true -> n < FREE_TRIAL_LIMIT)).
  { intros o Ho.
    assert (relayed_success (Exchange now ep b r) o = false) as ->.
    { destruct o; try reflexivity. exfalso. eapply Ho. reflexivity. }
    rewrite andb_false_r, Nat.add_0_r. split; [exact Hn|discriminate]. }
  destruct (registered v ep); [|apply Hkeep; discriminate].
  destruct (rateLimit _ _ _ _) as [[] hits']; [|apply Hkeep; discriminate].
  destruct (Proto.after_limiter v ep env (Proto.usageTracker s) b)
    as [res|c k] eqn:Ha; [apply Hkeep; discriminate|].
  apply proto_after_limiter_await in Ha as (Ht & Hq & ->).
  apply truthy_Some in Ht as (u' & Hu' & _).
  simpl. rewrite lookup_insert_eq.
  unfold relayed_success. simpl.
  destruct r as [cause|st cause|st data]; simpl;
    [rewrite andb_false_r, Nat.add_0_r; split; [exact Hn|discriminate]..|].
  destruct (ok st); simpl;
    [|rewrite andb_false_r, Nat.add_0_r; split; [exact Hn|discriminate]].
  rewrite Hu' in *. simpl. rewrite andb_true_r.
  case_bool_decide as Hd.
  - injection Hd as ->. rewrite Hn in *.
    change (Proto.at_limit (Number n)) with (FREE_TRIAL_LIMIT <=? n)%nat in Hq.
    apply Nat.leb_gt in Hq.
    rewrite proto_read_assign_own by assumption. cbn [Proto.plus_one].
    split; [f_equal; lia|intros _; exact Hq].
  - rewrite proto_read_assign_other by congruence.
    rewrite Nat.add_0_r. split; [exact Hn|discriminate].
Qed.

Lemma proto_serve_all_usage v env u xs : forall s n,
  inherited u = false ->
  Proto.read (Proto.usageTracker s) (Some u) = Number n ->
  Proto.read (Proto.usageTracker (Proto.serve_all v env s xs).1) (Some u) =
    Number (n + successes u xs (Proto.serve_all v env s xs).2) /\
  (n <= FREE_TRIAL_LIMIT ->
   n + successes u xs (Proto.serve_all v env s xs).2 <= FREE_TRIAL_LIMIT).
Proof.
  induction xs as [|x xs IH]; intros s n Hown Hn.
  - simpl. rewrite Nat.add_0_r. split; [exact Hn|auto].
  - rewrite proto_serve_all_cons. cbn [fst snd successes].
    destruct (proto_serve_usage v env s x u n Hown Hn) as [H1 H2].
    destruct (IH _ _ Hown H1) as [IH1 IH2].
    split; [rewrite IH1; f_equal; lia|].
    intros Hle.
    destruct (bool_decide (userId (request x) = Some u) &&
              relayed_success x (Proto.serve v env s x).2).
    + specialize (H2 eq_refl). lia.
    + rewrite Nat.add_0_r in IH2. specialize (IH2 Hle). lia.
Qed.

Lemma proto_read_start (u : string) :
  inherited u = false -> Proto.read (Proto.usageTracker Proto.start) (Some u) = Number 0.
Proof.
  intros H. unfold Proto.read. simpl. rewrite lookup_empty, H. reflexivity.
Qed.

(** X1: from a fresh process, with no two requests overlapping, the
    ledger holds for every user whose identity names no inherited member
    of the object the number of that user's relayed successes, on all
    endpoints together. *)
Theorem sequential_accounting v env xs u :
  inherited u = false ->
  Proto.read (Proto.usageTracker (Proto.serve_all v env Proto.start xs).1) (Some u) =
    Number (successes u xs (Proto.serve_all v env Proto.start xs).2).
Proof.
  intros Hown.
  apply (proto_serve_all_usage v env u xs Proto.start 0 Hown
           (proto_read_start u Hown)).
Qed.

Lemma sequential_accounting_witness :
  inherited "u1" = false /\
  Proto.read
    (Proto.usageTracker (Proto.serve_all server_js env_full Proto.start
                           twenty_one_spaced).1) (Some "u1") =
    Number (successes "u1" twenty_one_spaced
              (Proto.serve_all server_js env_full Proto.start twenty_one_spaced).2).
Proof.
  split; [reflexivity|].
  apply (sequential_accounting server_js env_full twenty_one_spaced "u1").
  reflexivity.
Defined.

(** X7: from a fresh process, with no two requests overlapping, a user
    whose identity names no inherited member of the object gets at most
    as many relayed successes as the free-trial limit, on all endpoints
    together. *)
Theorem sequential_successes_capped v env xs u :
  inherited u = false ->
  successes u xs (Proto.serve_all v env Proto.start xs).2 <= FREE_TRIAL_LIMIT.
Proof.
  intros Hown.
  destruct (proto_serve_all_usage v env u xs Proto.start 0 Hown
              (proto_read_start u Hown)) as [_ H].
  apply H. unfold FREE_TRIAL_LIMIT. lia.
Qed.

Lemma sequential_successes_capped_witness :
  inherited "u1" = false /\
  successes "u1" twenty_one_spaced
    (Proto.serve_all server_js env_full Proto.start twenty_one_spaced).2
    <= FREE_TRIAL_LIMIT.
Proof.
  split; [reflexivity|].
  apply (sequential_successes_capped server_js env_full twenty_one_spaced "u1").
  reflexivity.
Defined.

(** Under an inherited name the limit does not hold: twenty-one requests
    sixty-one seconds apart are twenty-one relayed successes. *)
Example inherited_identity_twenty_one :
  successes "constructor" twenty_one_inherited
    (Proto.serve_all server_js env_full Proto.start twenty_one_inherited).2 = 21 /\
  Proto.usageTracker
    (Proto.serve_all server_js env_full Proto.start twenty_one_inherited).1
    !! "constructor" = Some NotANumber.
Proof. split; vm_compute; reflexivity. Qed.

Lemma proto_step_arrive_state v env s now ep b :
  Proto.usageTracker (Proto.step v env s (Arrive now ep b)).1 =
    Proto.usageTracker s /\
  (Proto.in_flight (Proto.step v env s (Arrive now ep b)).1 = Proto.in_flight s \/
   truthy (userId b) = true /\
   Proto.in_flight (Proto.step v env s (Arrive now ep b)).1 =
     <[Proto.next_id s :=
         (ep, Proto.Kept (userId b) (Proto.read (Proto.usageTracker s) (userId b)))]>
       (Proto.in_flight s)).
Proof.
  simpl. destruct (registered v ep) eqn:Hr; [|auto].
  destruct (rateLimit _ _ _ _) as [[] hits']; [|auto].
  destruct (Proto.after_limiter v ep env (Proto.usageTracker s) b)
    as [r|c k] eqn:Ha; [auto|].
  apply proto_after_limiter_await in Ha as (Ht & Hq & ->). simpl. auto.
Qed.

Lemma proto_step_settle_state v env s id r ep k :
  Proto.in_flight s !! id = Some (ep, k) ->
  Proto.in_flight (Proto.step v env s (Settle id r)).1 =
    delete id (Proto.in_flight s) /\
  (Proto.usageTracker (Proto.step v env s (Settle id r)).1 = Proto.usageTracker s \/
   Proto.usageTracker (Proto.step v env s (Settle id r)).1 =
     Proto.assign (Proto.usageTracker s) (Proto.kept_userId k)
       (Proto.plus_one (Proto.kept_userUsage k))).
Proof.
  intros Hk. simpl. rewrite Hk.
  destruct r as [cause|st cause|st data]; simpl; [auto..|].
  destruct (ok st); simpl; auto.
Qed.

Lemma inherited_not_counted_step v env s e :
  inherited_not_counted s -> inherited_not_counted (Proto.step v env s e).1.
Proof.
  intros [Hu Hf]. destruct e as [now ep b|id r].
  - destruct (proto_step_arrive_state v env s now ep b) as [Hut Hin].
    unfold inherited_not_counted. rewrite Hut. split; [exact Hu|].
    destruct Hin as [-> | (_ & ->)]; [exact Hf|].
    intros id ep' k Hk Hi.
    destruct (decide (id = Proto.next_id s)) as [->|Hne].
    + rewrite lookup_insert_eq in Hk. injection Hk as _ <-. simpl in *.
      unfold Proto.read.
      destruct (Hu _ Hi) as [-> | ->]; [rewrite Hi|]; reflexivity.
    + rewrite lookup_insert_ne in Hk by congruence. apply (Hf id ep' k Hk Hi).
  - destruct (Proto.in_flight s !! id) as [[ep k]|] eqn:Hk.
    + destruct (proto_step_settle_state v env s id r ep k Hk) as [Hin Hut].
      unfold inherited_not_counted. rewrite Hin. split.
      * destruct Hut as [-> | ->]; [exact Hu|].
        intros u Hi. unfold Proto.assign.
        destruct (String.eqb _ "__proto__"); [apply Hu, Hi|].
        destruct (decide (u = property_key (Proto.kept_userId k))) as [->|Hne].
        -- rewrite lookup_insert_eq, (Hf id ep k Hk Hi). right. reflexivity.
        -- rewrite lookup_insert_ne by congruence. apply Hu, Hi.
      * intros id' ep' k' Hk'. apply lookup_delete_Some in Hk' as [_ Hk'].
        apply (Hf id' ep' k' Hk').
    + simpl. rewrite Hk. split; assumption.
Qed.

Lemma inherited_not_counted_run v env es : forall s,
  inherited_not_counted s -> inherited_not_counted (Proto.run v env s es).1.
Proof.
  induction es as [|e es IH]; intros s Hs; [exact Hs|].
  rewrite proto_run_cons. cbn [fst]. apply IH, inherited_not_counted_step, Hs.
Qed.

Lemma inherited_not_counted_start : inherited_not_counted Proto.start.
Proof.
  split.
  - intros u _. left. simpl. apply lookup_empty.
  - intros id ep k H. simpl in H. rewrite lookup_empty in H. discriminate.
Qed.

(** X10: a userId that names a member inherited from [Object.prototype]
    ("constructor", "toString", "__proto__", ...) is never held to the
    free-trial limit: in every run of either server from a fresh
    process, whatever came before, a gemini request under such an
    identity that the limiter lets through goes upstream. *)
Theorem inherited_identity_never_exhausted v env es now b u :
  inherited u = true ->
  userId b = Some u ->
  (rateLimit (apiLimiter v) (Proto.hits (Proto.run v env Proto.start es).1)
     (Some u) now).1 = true ->
  (Proto.step v env (Proto.run v env Proto.start es).1
     (Arrive now gemini_proxy b)).2 =
    Fetching (Proto.next_id (Proto.run v env Proto.start es).1)
      (GenerateContent (GEMINI_API_KEY env) (geminiPayload b)).
Proof.
  intros Hi Hb Hp.
  destruct (inherited_not_counted_run v env es Proto.start
              inherited_not_counted_start) as [Hu _].
  apply proto_step_fetching_iff.
  split; [destruct v; reflexivity|].
  split; [rewrite Hb; exact Hp|]. split; [reflexivity|].
  eexists. apply proto_after_limiter_gemini.
  - rewrite Hb. apply truthy_Some_ne, inherited_not_empty, Hi.
  - rewrite Hb. unfold Proto.read. simpl.
    destruct (Hu u Hi) as [-> | ->]; [rewrite Hi|]; reflexivity.
Qed.

Lemma inherited_identity_never_exhausted_witness :
  inherited "constructor" = true /\
  (Proto.step server_js env_full
     (Proto.run server_js env_full Proto.start
        [Arrive 0 gemini_proxy (generate (Some "constructor"));
         Settle 0 (Parsed 200 "{}")]).1
     (Arrive 61000 gemini_proxy (generate (Some "constructor")))).2 =
    Fetching 1 (GenerateContent (Some "gemini-key") (Some "{}")).
Proof.
  split; [reflexivity|].
  apply (inherited_identity_never_exhausted server_js env_full
           [Arrive 0 gemini_proxy (generate (Some "constructor"));
            Settle 0 (Parsed 200 "{}")]
           61000 (generate (Some "constructor")) "constructor");
    reflexivity.
Defined.

Lemma proto_read_as_object (ut : gmap string nat) (userId : option string) :
  inherited (property_key userId) = false ->
  Proto.read (Number <$> ut) userId = Number (usage ut userId).
Proof.
  intros H. unfold Proto.read, usage. rewrite lookup_fmap.
  destruct (ut !! property_key userId); simpl; [reflexivity|].
  rewrite H. reflexivity.
Qed.

Lemma proto_after_limiter_agrees v ep env (ut : gmap string nat) b :
  inherited (property_key (userId b)) = false ->
  Proto.after_limiter v ep env (Number <$> ut) b =
    match after_limiter v ep env ut b with
    | Done r => Proto.Done r
    | Await c k =>
        Proto.Await c (Proto.Kept (held_userId k) (Number (held_userUsage k)))
    end.
Proof.
  intros H. destruct v; cbn [Proto.after_limiter after_limiter].
  - unfold Proto.server_js_handler, ServerJs.gemini_proxy.
    rewrite proto_read_as_object by assumption. cbn [Proto.at_limit].
    destruct (truthy (userId b)); cbn [negb]; [|reflexivity].
    destruct (FREE_TRIAL_LIMIT <=? usage ut (userId b))%nat; reflexivity.
  - unfold Proto.usageAndAuthMiddleware, Part000.usageAndAuthMiddleware.
    rewrite proto_read_as_object by assumption. cbn [Proto.at_limit].
    destruct (truthy (userId b)); cbn [negb]; [|reflexivity].
    destruct (FREE_TRIAL_LIMIT <=? usage ut (userId b))%nat; [reflexivity|].
    destruct ep.
    + reflexivity.
    + unfold Proto.search_handler, Part000.search_proxy.
      destruct (Part000.no_query _); [reflexivity|].
      destruct (_ || _); [reflexivity|].
      destruct (searchPayload b); reflexivity.
Qed.

(** One event, seen in both models: from a state of the first model
    whose suspended handlers hold no inherited name, an event with no
    inherited name gives the same output and the same state. *)
Lemma step_agrees v env s e :
  own_in_flight s -> own_identity e ->
  Proto.step v env (as_object s) e =
    (as_object (step v env s e).1, (step v env s e).2) /\
  own_in_flight (step v env s e).1.
Proof.
  intros Hf He. destruct e as [now ep b|id r].
  - simpl in He. unfold as_object. cbn [Proto.step step].
    cbn [Proto.hits Proto.usageTracker Proto.in_flight Proto.next_id].
    destruct (registered v ep); [|split; [reflexivity|exact Hf]].
    destruct (rateLimit _ _ _ _) as [[] hits'];
      [|split; [reflexivity|exact Hf]].
    rewrite proto_after_limiter_agrees by assumption.
    destruct (after_limiter v ep env (usageTracker s) b) as [r|c k] eqn:Ha;
      [split; [reflexivity|exact Hf]|].
    split.
    + cbn [fst snd hits usageTracker in_flight next_id].
      rewrite fmap_insert. reflexivity.
    + apply after_limiter_await in Ha as (_ & _ & ->).
      intros id ep' k' Hk. cbn [fst in_flight] in Hk.
      destruct (decide (id = next_id s)) as [->|Hne].
      * rewrite lookup_insert_eq in Hk. injection Hk as _ <-. exact He.
      * rewrite lookup_insert_ne in Hk by congruence. apply (Hf id ep' k' Hk).
  - unfold as_object. cbn [Proto.step step].
    cbn [Proto.hits Proto.usageTracker Proto.in_flight Proto.next_id].
    rewrite lookup_fmap.
    destruct (in_flight s !! id) as [[ep k]|] eqn:Hk;
      cbn [fmap option_fmap option_map];
      [|split; [reflexivity|exact Hf]].
    rewrite resume_same.
    assert (Hany : forall ut, own_in_flight
              (State (hits s) ut (delete id (in_flight s)) (next_id s))).
    { intros ut id' ep' k' Hk'. cbn [in_flight] in Hk'.
      apply lookup_delete_Some in Hk' as [_ Hk']. apply (Hf id' ep' k' Hk'). }
    destruct r as [cause|st cause|st data];
      cbn [Proto.settle ServerJs.gemini_proxy_resume Proto.kept_userId
           Proto.kept_userUsage fst snd hits usageTracker in_flight next_id];
      try (split; [rewrite fmap_delete; reflexivity|apply Hany]).
    destruct (ok st);
      cbn [fst snd hits usageTracker in_flight next_id];
      [|split; [rewrite fmap_delete; reflexivity|apply Hany]].
    split; [|apply Hany].
    unfold Proto.assign. rewrite own_not_proto by apply (Hf id ep k Hk).
    cbn [Proto.plus_one]. rewrite fmap_delete, fmap_insert. reflexivity.
Qed.

Lemma run_agrees v env es : forall s,
  own_in_flight s -> Forall own_identity es ->
  Proto.run v env (as_object s) es =
    (as_object (run v env s es).1, (run v env s es).2).
Proof.
  induction es as [|e es IH]; intros s Hf Hes; [reflexivity|].
  apply Forall_cons in Hes as [He Hes].
  destruct (step_agrees v env s e Hf He) as [Hs Hf'].
  rewrite proto_run_cons, run_cons, Hs. cbn [fst snd].
  rewrite (IH _ Hf' Hes). reflexivity.
Qed.

(** X11: on every run in which no request carries a userId that names a
    member inherited from [Object.prototype], the model with the
    inherited members and the model of own counts give the same outputs,
    event by event, and the same ledger, limiter store and suspended
    handlers. *)
Theorem object_model_agrees v env es :
  Forall own_identity es ->
  Proto.run v env Proto.start es =
    (as_object (run v env start es).1, (run v env start es).2).
Proof.
  intros Hes.
  assert (Hs : as_object start = Proto.start).
  { unfold as_object, start, Proto.start. simpl. rewrite !fmap_empty. reflexivity. }
  rewrite <- Hs. apply run_agrees; [|exact Hes].
  intros id ep k H. simpl in H. rewrite lookup_empty in H. discriminate.
Qed.

Lemma object_model_agrees_witness :
  Forall own_identity
    [Arrive 0 gemini_proxy (generate (Some "u1"));
     Arrive 5 gemini_proxy (generate None);
     Settle 0 (Parsed 200 "{}")] /\
  Proto.run part_000 env_full Proto.start
    [Arrive 0 gemini_proxy (generate (Some "u1"));
     Arrive 5 gemini_proxy (generate None);
     Settle 0 (Parsed 200 "{}")] =
    (as_object
       (run part_000 env_full start
          [Arrive 0 gemini_proxy (generate (Some "u1"));
           Arrive 5 gemini_proxy (generate None);
           Settle 0 (Parsed 200 "{}")]).1,
     (run part_000 env_full start
        [Arrive 0 gemini_proxy (generate (Some "u1"));
         Arrive 5 gemini_proxy (generate None);
         Settle 0 (Parsed 200 "{}")]).2).
Proof.
  assert (H : Forall own_identity
    [Arrive 0 gemini_proxy (generate (Some "u1"));
     Arrive 5 gemini_proxy (generate None);
     Settle 0 (Parsed 200 "{}")]).
  { repeat constructor. }
  split; [exact H|].
  exact (object_model_agrees part_000 env_full _ H).
Defined.
